(** * The Dodona reporting protocol of judge-turtle

    A shallow embedding of [judge/dodona_command.py] (the report blocks, the
    failure signal [DodonaException] and their [with]-statement protocol) and
    of [judge/runtime.py]'s [diff_images], with the properties the
    specification states about them.

    - Python dictionaries whose keys are strings ([**kwargs], the
      [__dict__] of a [SimpleNamespace], the status object, the JSON records
      written to stdout with [sort_keys=True]) are [gmap string value].
    - Standard output is the list of records written by [__print_command],
      oldest first.  Every record is paired with the call of
      [__print_command] that wrote it (in [__enter__], in [__exit__] or in
      [handle_dodona_exception]) and with the class of the object that wrote
      it; this pair is bookkeeping, [record] is what reaches stdout.
    - A raised exception is a value returned next to the output. *)

From Stdlib Require Import Ascii String.
From stdpp Require Import gmap strings list fin_maps.

Set Warnings "-register-all".
#[local] Open Scope string_scope.
#[local] Open Scope list_scope.

(** ** Values *)

(** What [json.dump] accepts. Members of the [str]-based enumerations are
    their string. *)
Inductive value :=
| VNone
| VBool (b : bool)
| VInt (z : Z)
| VStr (s : string)
| VList (l : list value)
| VDict (m : gmap string value).

Abbreviation dict := (gmap string value).

(** [v == s] for a Python value [v] and a string [s]: only an equal string
    compares equal. *)
Definition py_eq_str (v : value) (s : string) : bool :=
  match v with
  | VStr t => String.eqb t s
  | _ => false
  end.

(** [{"command": c, **d}]: the entries of [d] come last and win. *)
Definition command_record (c : string) (d : dict) : dict :=
  d ∪ {[ "command" := VStr c ]}.

(** [str.lower] on ASCII letters. *)
Definition lower_ascii (a : ascii) : ascii :=
  let n := nat_of_ascii a in
  if (65 <=? n)%nat && (n <=? 90)%nat then ascii_of_nat (n + 32) else a.

Fixpoint lower (s : string) : string :=
  match s with
  | EmptyString => EmptyString
  | String a s' => String (lower_ascii a) (lower s')
  end.

(** ** Enumerations *)

Inductive ErrorType :=
| INTERNAL_ERROR
| COMPILATION_ERROR
| MEMORY_LIMIT_EXCEEDED
| TIME_LIMIT_EXCEEDED
| OUTPUT_LIMIT_EXCEEDED
| RUNTIME_ERROR
| WRONG
| WRONG_ANSWER
| CORRECT
| CORRECT_ANSWER.

Definition ErrorType_value (e : ErrorType) : string :=
  match e with
  | INTERNAL_ERROR => "internal error"
  | COMPILATION_ERROR => "compilation error"
  | MEMORY_LIMIT_EXCEEDED => "memory limit exceeded"
  | TIME_LIMIT_EXCEEDED => "time limit exceeded"
  | OUTPUT_LIMIT_EXCEEDED => "output limit exceeded"
  | RUNTIME_ERROR => "runtime error"
  | WRONG => "wrong"
  | WRONG_ANSWER => "wrong answer"
  | CORRECT => "correct"
  | CORRECT_ANSWER => "correct answer"
  end.

(** ** Classes *)

(** The classes of the module that can be entered by [with]. *)
Inductive Class :=
| DodonaCommand
| DodonaCommandWithAccepted
| DodonaCommandWithStatus
| Judgement
| Tab
| Context
| TestCase
| Test
| Message
| Annotation.

#[global] Instance Class_eq_dec : EqDecision Class.
Proof. solve_decision. Defined.

(** [__name__] *)
Definition class_name (c : Class) : string :=
  match c with
  | DodonaCommand => "DodonaCommand"
  | DodonaCommandWithAccepted => "DodonaCommandWithAccepted"
  | DodonaCommandWithStatus => "DodonaCommandWithStatus"
  | Judgement => "Judgement"
  | Tab => "Tab"
  | Context => "Context"
  | TestCase => "TestCase"
  | Test => "Test"
  | Message => "Message"
  | Annotation => "Annotation"
  end.

(** The base class written in the [class] statement ([DodonaCommand] derives
    from [ABC] only). *)
Definition base (c : Class) : option Class :=
  match c with
  | DodonaCommand => None
  | DodonaCommandWithAccepted => Some DodonaCommand
  | DodonaCommandWithStatus => Some DodonaCommandWithAccepted
  | Judgement => Some DodonaCommandWithStatus
  | Tab => Some DodonaCommand
  | Context => Some DodonaCommandWithAccepted
  | TestCase => Some DodonaCommandWithAccepted
  | Test => Some DodonaCommandWithStatus
  | Message => Some DodonaCommand
  | Annotation => Some DodonaCommand
  end.

(** The method resolution order, by following [base]; no chain is longer
    than four classes. *)
Fixpoint mro_from (fuel : nat) (c : Class) : list Class :=
  match fuel with
  | O => []
  | S fuel' =>
      c :: match base c with
           | Some p => mro_from fuel' p
           | None => []
           end
  end.

Definition mro (c : Class) : list Class := mro_from 4 c.

Definition issubclass (c d : Class) : bool := bool_decide (d ∈ mro c).

(** First class of the resolution order that defines a method. *)
Definition resolve (defines : Class → bool) (c : Class) : option Class :=
  head (filter (λ k, defines k = true) (mro c)).

(** ** Objects *)

(** An instance of a subclass of [DodonaCommand]. *)
Record instance := Instance {
  cls : Class;
  start_args : dict;
  close_args : dict;
}.

(** [isinstance(self, d)] *)
Definition isinstance (self : instance) (d : Class) : bool :=
  issubclass (cls self) d.

(** [DodonaCommand.__init__(self, **kwargs)] *)
Definition DodonaCommand_init (c : Class) (kwargs : dict) : instance :=
  {| cls := c; start_args := kwargs; close_args := ∅ |}.

(** [Tab.__init__(self, title, **kwargs)]; Python rejects a call that gives
    [title] twice, so [kwargs] has no entry ["title"]. *)
Definition Tab_init (title : value) (kwargs : dict) : instance :=
  DodonaCommand_init Tab (<["title" := title]> kwargs).

(** [TestCase.__init__(self, *args, **kwargs)] *)
Definition TestCase_init (args : list value) (kwargs : dict) : instance :=
  match args with
  | [a] => DodonaCommand_init TestCase {[ "description" := a ]}
  | _ => DodonaCommand_init TestCase {[ "description" := VDict kwargs ]}
  end.

(** [Test.__init__(self, description, expected, **kwargs)] *)
Definition Test_init (description expected : value) (kwargs : dict) : instance :=
  DodonaCommand_init Test
    (<["description" := description]> (<["expected" := expected]> kwargs)).

(** [Message.__init__(self, *args, **kwargs)] *)
Definition Message_init (args : list value) (kwargs : dict) : instance :=
  match args with
  | [a] => DodonaCommand_init Message {[ "message" := a ]}
  | _ => DodonaCommand_init Message {[ "message" := VDict kwargs ]}
  end.

(** [Annotation.__init__(self, row, text, **kwargs)] *)
Definition Annotation_init (row text : value) (kwargs : dict) : instance :=
  DodonaCommand_init Annotation (<["row" := row]> (<["text" := text]> kwargs)).

(** [name(self)] *)
Definition name (self : instance) : string := lower (class_name (cls self)).

(** [start_msg], overridden by [Message] and [Annotation]. *)
Definition defines_start_msg (c : Class) : bool :=
  match c with
  | DodonaCommand | Message | Annotation => true
  | _ => false
  end.

Definition start_msg (self : instance) : dict :=
  match resolve defines_start_msg (cls self) with
  | Some Message => command_record "append-message" (start_args self)
  | Some Annotation => command_record "annotate-code" (start_args self)
  | _ => command_record ("start-" ++ name self)%string (start_args self)
  end.

(** [close_msg], overridden by [Message] and [Annotation] to return [None]. *)
Definition defines_close_msg (c : Class) : bool :=
  match c with
  | DodonaCommand | Message | Annotation => true
  | _ => false
  end.

Definition close_msg (self : instance) : option dict :=
  match resolve defines_close_msg (cls self) with
  | Some Message => None
  | Some Annotation => None
  | _ => Some (command_record ("close-" ++ name self)%string (close_args self))
  end.

(** ** Standard output *)

(** The three calls of [__print_command]. *)
Inductive site := AtEnter | AtExit | AtEscalate.

#[global] Instance site_eq_dec : EqDecision site.
Proof. solve_decision. Defined.

Record event := Event {
  at_site : site;
  emitter : Class;
  record : dict;
}.

(** [__print_command(result)]: nothing for [None], else one record. *)
Definition __print_command (s : site) (c : Class) (result : option dict) : list event :=
  match result with
  | None => []
  | Some d => [Event s c d]
  end.

(** [__enter__]: writes the start message (and returns [close_args], which
    the body reaches through the stack of entered objects). *)
Definition __enter__ (self : instance) : list event :=
  __print_command AtEnter (cls self) (Some (start_msg self)).

(** ** The failure signal *)

Record DodonaException := Signal {
  status : dict;
  recover_at : Class;
  escalate_status : bool;
  message : option instance;
}.

(** [DodonaException.__init__(self, status, recover_at=None, **kwargs)] *)
Definition DodonaException_init
    (status : dict) (recover_at : option Class) (kwargs : dict) : DodonaException :=
  {| status := status;
     recover_at := match recover_at with None => Judgement | Some c => c end;
     escalate_status := match recover_at with None => false | Some _ => true end;
     message := if decide (0 < size kwargs)%nat then Some (Message_init [] kwargs) else None |}.

Inductive exn :=
| Dodona (e : DodonaException)
| OtherException (what : string).

(** A call either returns or raises. *)
Inductive outcome (A : Type) :=
| Returns (a : A)
| Raises (x : exn).
Arguments Returns {A} a.
Arguments Raises {A} x.

(** [with exception.message: pass]: [__enter__], an empty body, and
    [__exit__(None, None, None)], which skips the handler and prints the
    close message. *)
Definition with_pass (m : instance) : list event :=
  __enter__ m ++ __print_command AtExit (cls m) (close_msg m).

(** [DodonaCommand.handle_dodona_exception]: the exception as it is left,
    the records written, and the returned flag. *)
Definition DodonaCommand_handle_dodona_exception (self : instance) (exception : DodonaException)
    : DodonaException * list event * bool :=
  let '(exception, out) :=
    match message exception with
    | Some m =>
        ({| status := status exception;
            recover_at := recover_at exception;
            escalate_status := escalate_status exception;
            message := None |},
         with_pass m)
    | None => (exception, [])
    end in
  if isinstance self (recover_at exception) then
    (exception,
     out ++ (if escalate_status exception
             then __print_command AtEscalate (cls self)
                    (Some (<["command" := VStr "escalate-status"]>
                             {[ "status" := VDict (status exception) ]}))
             else []),
     true)
  else (exception, out, false).

(** [self.close_args.<k> = v] *)
Definition set_close (self : instance) (k : string) (v : value) : instance :=
  {| cls := cls self;
     start_args := start_args self;
     close_args := <[k := v]> (close_args self) |}.

(** [DodonaCommandWithAccepted.handle_dodona_exception];
    [exception.status["enum"]] raises [KeyError] when the entry is missing. *)
Definition DodonaCommandWithAccepted_handle_dodona_exception
    (self : instance) (exception : DodonaException)
    : outcome (instance * DodonaException * list event * bool) :=
  match status exception !! "enum" with
  | None => Raises (OtherException "KeyError")
  | Some v =>
      let accepted :=
        py_eq_str v (ErrorType_value CORRECT)
        || py_eq_str v (ErrorType_value CORRECT_ANSWER) in
      let self := set_close self "accepted" (VBool accepted) in
      let '(exception, out, handled) := DodonaCommand_handle_dodona_exception self exception in
      Returns (self, exception, out, handled)
  end.

(** [DodonaCommandWithStatus.handle_dodona_exception] *)
Definition DodonaCommandWithStatus_handle_dodona_exception
    (self : instance) (exception : DodonaException)
    : outcome (instance * DodonaException * list event * bool) :=
  let self := set_close self "status" (VDict (status exception)) in
  DodonaCommandWithAccepted_handle_dodona_exception self exception.

Definition defines_handle (c : Class) : bool :=
  match c with
  | DodonaCommand | DodonaCommandWithAccepted | DodonaCommandWithStatus => true
  | _ => false
  end.

(** [self.handle_dodona_exception(exception)], by the class of [self]. *)
Definition handle_dodona_exception (self : instance) (exception : DodonaException)
    : outcome (instance * DodonaException * list event * bool) :=
  match resolve defines_handle (cls self) with
  | Some DodonaCommandWithStatus => DodonaCommandWithStatus_handle_dodona_exception self exception
  | Some DodonaCommandWithAccepted => DodonaCommandWithAccepted_handle_dodona_exception self exception
  | _ =>
      let '(exception, out, handled) := DodonaCommand_handle_dodona_exception self exception in
      Returns (self, exception, out, handled)
  end.

(** [__exit__(self, exc_type, exc_val, exc_tb)]; [exc_val] is [None] when the
    body ended without an exception.  Returns the object and the exception
    as they are left, the records written and the flag. *)
Definition __exit__ (self : instance) (exc_val : option exn)
    : outcome (instance * option exn * list event * bool) :=
  match exc_val with
  | Some (Dodona e) =>
      match handle_dodona_exception self e with
      | Returns (self, e, out, handled) =>
          Returns (self, Some (Dodona e),
                   out ++ __print_command AtExit (cls self) (close_msg self),
                   handled)
      | Raises x => Raises x
      end
  | _ =>
      Returns (self, exc_val, __print_command AtExit (cls self) (close_msg self), false)
  end.

(** ** Block bodies *)

(** The body of a [with] block, as far as the protocol sees it: nested
    [with] statements, assignments to the handle of an entered object
    ([lvl] counts outwards from the innermost one), a raised failure signal,
    any other raised exception, in sequence. *)
Inductive code :=
| Pass
| Seq (c1 c2 : code)
| With (mgr : instance) (body : code)
| SetAttr (lvl : nat) (k : string) (v : value)
| RaiseDodona (status : dict) (recover_at : option Class) (kwargs : dict)
| RaiseOther (what : string).

Inductive result :=
| Normal
| Raised (x : exn).

(** The end of a [with] statement: [__exit__] gets the exception of the
    body, if any, which is raised again unless [__exit__] returns true; an
    exception raised by [__exit__] itself replaces it. *)
Definition leave (self : instance) (r : result) : list event * result :=
  let exc_val := match r with Normal => None | Raised x => Some x end in
  match __exit__ self exc_val with
  | Returns (_, exc_val, out, handled) =>
      (out,
       match exc_val with
       | Some x => if handled then Normal else Raised x
       | None => Normal
       end)
  | Raises y => ([], Raised y)
  end.

(** Runs a body with the entered objects [stk] (innermost first); gives
    these objects as the body leaves them, the records written and how the
    body ended. *)
Fixpoint exec (c : code) (stk : list instance) : list instance * list event * result :=
  match c with
  | Pass => (stk, [], Normal)
  | Seq c1 c2 =>
      match exec c1 stk with
      | (stk, out1, Normal) =>
          let '(stk, out2, r) := exec c2 stk in (stk, out1 ++ out2, r)
      | (stk, out1, Raised x) => (stk, out1, Raised x)
      end
  | With mgr body =>
      let '(stk, out1, r) := exec body (mgr :: stk) in
      match stk with
      | self :: stk =>
          let '(out2, r) := leave self r in
          (stk, __enter__ mgr ++ out1 ++ out2, r)
      | [] => ([], __enter__ mgr ++ out1, r)
      end
  | SetAttr lvl k v =>
      match stk !! lvl with
      | Some self => (<[lvl := set_close self k v]> stk, [], Normal)
      | None => (stk, [], Raised (OtherException "NameError"))
      end
  | RaiseDodona status recover_at kwargs =>
      (stk, [], Raised (Dodona (DodonaException_init status recover_at kwargs)))
  | RaiseOther what => (stk, [], Raised (OtherException what))
  end.

(** The records a program writes, and how it ends. *)
Definition stdout_of (c : code) : list dict := record <$> (exec c []).1.2.
Definition result_of (c : code) : result := (exec c []).2.

(** ** What one handled signal leaves behind *)

(** The signal once its note has been printed. *)
Definition strip (e : DodonaException) : DodonaException :=
  {| status := status e;
     recover_at := recover_at e;
     escalate_status := escalate_status e;
     message := None |}.

(** The records of the note of a signal. *)
Definition note_out (e : DodonaException) : list event :=
  match message e with
  | Some m => with_pass m
  | None => []
  end.

(** The [accepted] flag derived from a status object. *)
Definition accepted_of (st : dict) : bool :=
  match st !! "enum" with
  | Some v =>
      py_eq_str v (ErrorType_value CORRECT)
      || py_eq_str v (ErrorType_value CORRECT_ANSWER)
  | None => false
  end.

(** The classes with an [accepted] close field, and those with a [status]
    close field. *)
Definition with_accepted (c : Class) : bool := issubclass c DodonaCommandWithAccepted.
Definition with_status (c : Class) : bool := issubclass c DodonaCommandWithStatus.

(** The object after the close-field updates of its handler. *)
Definition bookkeep (self : instance) (e : DodonaException) : instance :=
  let self := if with_status (cls self)
              then set_close self "status" (VDict (status e)) else self in
  if with_accepted (cls self)
  then set_close self "accepted" (VBool (accepted_of (status e))) else self.

(** The [escalate-status] record of a block that claims the signal. *)
Definition escalate_record (e : DodonaException) : dict :=
  <["command" := VStr "escalate-status"]> {[ "status" := VDict (status e) ]}.

Definition escalation (self : instance) (e : DodonaException) : list event :=
  if isinstance self (recover_at e) && escalate_status e
  then [Event AtEscalate (cls self) (escalate_record e)]
  else [].

(** The close record, if the class has one. *)
Definition closing (self : instance) : list event :=
  __print_command AtExit (cls self) (close_msg self).

(** A status object that carries an outcome descriptor. *)
Definition has_outcome (st : dict) : Prop := is_Some (st !! "enum").

(** ** Well-nested output *)

(** What a block may write when it exits: nothing, or one close record. *)
Definition closes (c : Class) (cl : list event) : Prop :=
  cl = [] ∨ ∃ d, cl = [Event AtExit c d].

(** A well-nested stream is a sequence of blocks and [escalate-status]
    records; a block is one start record, a well-nested stream (what its
    body and its handler write, its descendants among them), and then at
    most one close record of the same object. *)
Inductive well_nested : list event → Prop :=
| wn_nil : well_nested []
| wn_escalate c d rest :
    well_nested rest →
    well_nested (Event AtEscalate c d :: rest)
| wn_block c d inner cl rest :
    well_nested inner →
    closes c cl →
    well_nested rest →
    well_nested (Event AtEnter c d :: inner ++ cl ++ rest).

(** ** The records of each [with] statement *)

(** The start record and the close record of an object, as values: the
    start message at the call in [__enter__], the close message, if there
    is one, at the call in [__exit__]. *)
Definition start_record (self : instance) : event :=
  Event AtEnter (cls self) (start_msg self).

Definition close_records (self : instance) : list event :=
  match close_msg self with
  | Some d => [Event AtExit (cls self) d]
  | None => []
  end.

(** The same object, whatever has been assigned to its close fields. *)
Definition same_block (self mgr : instance) : Prop :=
  cls self = cls mgr ∧ start_args self = start_args mgr.

(** What the handler of a block of class [c] may write: at most the note
    of the signal, a block of its own that is entered and left at once, and
    then at most one [escalate-status] record of the block. *)
Definition handler_records (c : Class) (h : list event) : Prop :=
  ∃ note esc,
    h = note ++ esc
    ∧ (note = [] ∨ ∃ m, note = start_record m :: close_records m)
    ∧ (esc = [] ∨ ∃ d, esc = [Event AtEscalate c d]).


(** [records_of c t ok]: the records [t] are what the statements of [c]
    may write, [ok] telling whether [c] ends normally.  A [with] statement
    writes the start record of its object first, then what its body writes
    (the records of the blocks inside it among them), then, if the body
    raised, what its handler writes, and last the close record of its
    object: always when the body ended normally, at most once in any case.
    The statement after a statement that raised writes nothing. *)
Inductive records_of : code → list event → bool → Prop :=
| ro_pass : records_of Pass [] true
| ro_assign lvl k v ok : records_of (SetAttr lvl k v) [] ok
| ro_raise st ra kw : records_of (RaiseDodona st ra kw) [] false
| ro_raise_other what : records_of (RaiseOther what) [] false
| ro_seq c1 c2 t1 t2 ok :
    records_of c1 t1 true →
    records_of c2 t2 ok →
    records_of (Seq c1 c2) (t1 ++ t2) ok
| ro_seq_raised c1 c2 t1 :
    records_of c1 t1 false →
    records_of (Seq c1 c2) t1 false
| ro_with_normal mgr body inside self :
    records_of body inside true →
    same_block self mgr →
    records_of (With mgr body) (start_record mgr :: inside ++ close_records self) true
| ro_with_raised mgr body inside h cl ok :
    records_of body inside false →
    handler_records (cls mgr) h →
    (cl = [] ∨ ∃ self, same_block self mgr ∧ cl = close_records self) →
    records_of (With mgr body) (start_record mgr :: inside ++ h ++ cl) ok.

(** ** Raise sites *)

(** A body with one place marked: the place may lie inside further [with]
    blocks, after code that has run ([After]) and before code that has not
    ([Before]). *)
Inductive ctx :=
| Hole
| InWith (mgr : instance) (k : ctx)
| After (pre : code) (k : ctx)
| Before (k : ctx) (post : code).

Fixpoint plug (k : ctx) (c : code) : code :=
  match k with
  | Hole => c
  | InWith mgr k => With mgr (plug k c)
  | After pre k => Seq pre (plug k c)
  | Before k post => Seq (plug k c) post
  end.

(** The objects entered between the top of the body and the marked place,
    outermost first. *)
Fixpoint managers (k : ctx) : list instance :=
  match k with
  | Hole => []
  | InWith mgr k => mgr :: managers k
  | After _ k => managers k
  | Before k _ => managers k
  end.

Definition depth (k : ctx) : nat := length (managers k).

(** The entered objects and the records written when control arrives at the
    marked place; [None] when the code before it raises. *)
Fixpoint reach (k : ctx) (stk : list instance) : option (list instance * list event) :=
  match k with
  | Hole => Some (stk, [])
  | InWith mgr k =>
      match reach k (mgr :: stk) with
      | Some (stk', out) => Some (stk', __enter__ mgr ++ out)
      | None => None
      end
  | After pre k =>
      match exec pre stk with
      | (stk1, out1, Normal) =>
          match reach k stk1 with
          | Some (stk', out) => Some (stk', out1 ++ out)
          | None => None
          end
      | (_, _, Raised _) => None
      end
  | Before k _ => reach k stk
  end.

(** An exception leaving the entered objects [frames] one after the other,
    innermost first, until one of them swallows it. *)
Fixpoint propagate (x : exn) (frames : list instance) : list event * result :=
  match frames with
  | [] => ([], Raised x)
  | self :: frames =>
      match leave self (Raised x) with
      | (out, Raised x') =>
          let '(out', r) := propagate x' frames in (out ++ out', r)
      | (out, Normal) => (out, Normal)
      end
  end.

(** The close records of the blocks a signal passes, innermost first, each
    after the close-field updates of its handler. *)
Definition closings (e : DodonaException) (frames : list instance) : list event :=
  flat_map (λ self, closing (bookkeep self e)) frames.

(** ** Facts about single records *)

(** The classes whose [close_msg] is a record. *)
Definition has_close (c : Class) : bool :=
  match c with
  | Message | Annotation => false
  | _ => true
  end.

(** The close record of a block after its handler: the derived fields are
    in it. *)
Definition derived_fields (st : dict) (ev : event) : Prop :=
  (with_accepted (emitter ev) = true →
   record ev !! "accepted" = Some (VBool (accepted_of st)))
  ∧ (with_status (emitter ev) = true →
     record ev !! "status" = Some (VDict st)).

(** The note of a raised signal: present when keyword arguments were
    given, and then a single [append-message] record. *)
Definition note_event (kw : dict) : event :=
  Event AtEnter Message (command_record "append-message" {[ "message" := VDict kw ]}).

(** ** Running examples *)

(** The blocks of [turtle_judge.py], and a status object. *)
Definition wrong_answer : dict :=
  {[ "enum" := VStr (ErrorType_value WRONG_ANSWER); "human" := VStr "Wrong answer" ]}.

Definition ex_judgement : instance := DodonaCommand_init Judgement ∅.
Definition ex_tab : instance := Tab_init (VStr "Comparing PNGs") ∅.
Definition ex_context : instance := DodonaCommand_init Context ∅.
Definition ex_testcase : instance :=
  TestCase_init [] {[ "format" := VStr "python"; "description" := VStr "solution.py" ]}.
Definition ex_test : instance := Test_init (VStr "test1 0") (VStr "<svg/>") ∅.
Definition ex_note : instance := Message_init [VStr "hello"] ∅.

(** Inside the test of [turtle_judge.py], after [test.generated] is set. *)
Definition ex_site : ctx :=
  InWith ex_tab (InWith ex_context (InWith ex_testcase
    (InWith ex_test (After (SetAttr 0 "generated" (VStr "<svg/>")) Hole)))).

(** Inside a tab inside a context. *)
Definition ex_inner : ctx := InWith ex_tab (Before Hole (SetAttr 0 "badgeCount" (VInt 1))).

Definition ex_kwargs : dict := {[ "description" := VStr "images differ" ]}.

Definition ex_signal : DodonaException :=
  DodonaException_init wrong_answer None ex_kwargs.

(** ** Signals with a recover point *)

(** The record on stdout has the given [command]. *)
Definition command_is (c : string) (ev : event) : bool :=
  match record ev !! "command" with
  | Some v => py_eq_str v c
  | None => false
  end.

(** The claim of [C4], for the blocks [blocks] a signal with status [st]
    leaves and the records [out] written meanwhile: each of them writes
    an [escalate-status] record with that status. *)
Definition each_block_escalates
    (blocks : list instance) (st : dict) (out : list event) : Prop :=
  ∀ b, b ∈ blocks →
    ∃ ev, ev ∈ out ∧ at_site ev = AtEscalate ∧ emitter ev = cls b
          ∧ record ev !! "status" = Some (VDict st).

(** ** The derived [accepted] field *)

#[global] Instance ErrorType_eq_dec : EqDecision ErrorType.
Proof. solve_decision. Defined.

(** ** Who claims a signal *)

(** [c] names [p] as its base class. *)
Definition extends (c p : Class) : Prop := base c = Some p.

(** ** [runtime.diff_images] *)

(** Pillow is a library the judge calls; the two functions [diff_images]
    uses are written down from Pillow's documentation.  An image of an
    8-bit mode ([L], [RGB], [RGBA]) is its number of bands and its rows of
    pixels, a pixel being one value below 256 for each band. *)
Record Image := {
  bands : nat;
  rows : list (list (list nat));
}.

Definition pixels (im : Image) : list (list nat) := concat (rows im).

Definition well_formed (im : Image) : Prop :=
  Forall (λ px, length px = bands im ∧ Forall (λ v, v < 256) px) (pixels im).

(** [ImageChops.difference(image1, image2)]: the absolute value of the
    pixel-by-pixel difference, on the common part of the two images;
    images with different bands do not match ([ValueError]). *)
Definition ImageChops_difference (image1 image2 : Image) : option Image :=
  if decide (bands image1 = bands image2)
  then Some {| bands := bands image1;
               rows := zip_with (zip_with (zip_with (λ a b, (a - b) + (b - a))))
                         (rows image1) (rows image2) |}
  else None.

(** [Image.histogram()]: for each band in turn, the number of pixels with
    each of the values 0 to 255. *)
Definition histogram (im : Image) : list nat :=
  flat_map (λ b, map (λ v, length (filter (λ px, px !! b = Some v) (pixels im)))
                     (seq 0 256))
           (seq 0 (bands im)).

(** [diff_images(image1, image2)] *)
Definition diff_images (image1 image2 : Image) : option nat :=
  match ImageChops_difference image1 image2 with
  | Some diff => Some (sum_list (histogram diff))
  | None => None
  end.

(** One black pixel and one white pixel, in mode [L]. *)
Definition black_pixel : Image := {| bands := 1; rows := [[[0]]] |}.
Definition white_pixel : Image := {| bands := 1; rows := [[[255]]] |}.

(** ** More of the protocol *)

(** The [command] a class gives its start record. *)
Definition start_command (c : Class) : string :=
  match c with
  | Message => "append-message"
  | Annotation => "annotate-code"
  | _ => ("start-" ++ lower (class_name c))%string
  end.

(** ** [runtime_patch.py] *)

(** The patches move references between module attributes, [sys.modules],
    the builtins and locals of a generator.  A Python value is known here
    by its identity.  A patch is "fully defined by a generator function":
    [__enter__] runs it up to its [yield], and [__exit__] drops the
    generator object, which, as the docstring of [__exit__] says, "invokes
    the finally block in the generator" (CPython closes a suspended
    generator when its last reference goes away).  [TurtlePatch] builds a
    screen and a turtle with the svg_turtle library and is not modelled. *)
Module runtime_patch.

Inductive pyval :=
| PyNone
| PyObj (id : nat)        (* an object that was there before *)
| PyNoop (id : nat)       (* the function made by one [lambda ...: None] *)
| PyStringIO (id : nat)   (* the stream made by one [StringIO()] *)
| PyStr (s : string)
| PyList (l : list pyval)
| PyTuple (l : list pyval).

(** The part of the interpreter the patches read and write. [attrs] holds
    the attributes of the objects [PyObj id]; [builtins] is the dictionary
    [__builtins__] of an imported module; [made] counts the objects made by
    [lambda] and [StringIO()]. *)
Record World := {
  sys_modules : gmap string pyval;
  attrs : gmap nat (gmap string pyval);
  sys_stdin : pyval;
  sys_stdout : pyval;
  sys_stderr : pyval;
  sys___stdin__ : pyval;
  sys___stdout__ : pyval;
  sys___stderr__ : pyval;
  sys_argv : pyval;
  builtins : gmap string pyval;
  made : nat;
}.

(** [d[k]] on a dictionary *)
Definition getitem (d : gmap string pyval) (k : string) : outcome pyval :=
  match d !! k with
  | Some v => Returns v
  | None => Raises (OtherException "KeyError")
  end.

(** [o.a]: only the objects [PyObj id] have the attributes the patches
    read. *)
Definition getattr (w : World) (o : pyval) (a : string) : outcome pyval :=
  match o with
  | PyObj id =>
      match attrs w !! id ≫= (.!! a) with
      | Some v => Returns v
      | None => Raises (OtherException "AttributeError")
      end
  | _ => Raises (OtherException "AttributeError")
  end.

(** [o.a = v] for an object [PyObj id] *)
Definition setattr (w : World) (id : nat) (a : string) (v : pyval) : World :=
  {| sys_modules := sys_modules w;
     attrs := <[id := <[a := v]> (default ∅ (attrs w !! id))]> (attrs w);
     sys_stdin := sys_stdin w; sys_stdout := sys_stdout w; sys_stderr := sys_stderr w;
     sys___stdin__ := sys___stdin__ w; sys___stdout__ := sys___stdout__ w;
     sys___stderr__ := sys___stderr__ w;
     sys_argv := sys_argv w; builtins := builtins w; made := made w |}.

Definition set_made (w : World) (n : nat) : World :=
  {| sys_modules := sys_modules w; attrs := attrs w;
     sys_stdin := sys_stdin w; sys_stdout := sys_stdout w; sys_stderr := sys_stderr w;
     sys___stdin__ := sys___stdin__ w; sys___stdout__ := sys___stdout__ w;
     sys___stderr__ := sys___stderr__ w;
     sys_argv := sys_argv w; builtins := builtins w; made := n |}.

(** [sys.stdin, sys.stdout, sys.stderr = a, b, c] *)
Definition set_std (w : World) (a b c : pyval) : World :=
  {| sys_modules := sys_modules w; attrs := attrs w;
     sys_stdin := a; sys_stdout := b; sys_stderr := c;
     sys___stdin__ := sys___stdin__ w; sys___stdout__ := sys___stdout__ w;
     sys___stderr__ := sys___stderr__ w;
     sys_argv := sys_argv w; builtins := builtins w; made := made w |}.

(** [sys.__stdin__, sys.__stdout__, sys.__stderr__ = a, b, c] *)
Definition set_dunder_std (w : World) (a b c : pyval) : World :=
  {| sys_modules := sys_modules w; attrs := attrs w;
     sys_stdin := sys_stdin w; sys_stdout := sys_stdout w; sys_stderr := sys_stderr w;
     sys___stdin__ := a; sys___stdout__ := b; sys___stderr__ := c;
     sys_argv := sys_argv w; builtins := builtins w; made := made w |}.

(** The six assignments of [RuntimePatch]: [sys.modules["os"]],
    [sys.modules["io"]], [__builtins__["open"]], [__builtins__["eval"]],
    [__builtins__["exec"]], [sys.argv]. *)
Definition set_runtime (w : World) (os io open eval exec_ argv : pyval) : World :=
  {| sys_modules := <["io" := io]> (<["os" := os]> (sys_modules w));
     attrs := attrs w;
     sys_stdin := sys_stdin w; sys_stdout := sys_stdout w; sys_stderr := sys_stderr w;
     sys___stdin__ := sys___stdin__ w; sys___stdout__ := sys___stdout__ w;
     sys___stderr__ := sys___stderr__ w;
     sys_argv := argv;
     builtins := <["exec" := exec_]> (<["eval" := eval]> (<["open" := open]> (builtins w)));
     made := made w |}.

(** The classes, with the fields their [__init__] stores. *)
Inductive PatchClass :=
| Patch
| TimePatch
| InOutPatch
| RuntimePatch (name : string).

(** The locals of a generator suspended at its [yield]. *)
Inductive locals :=
| PatchLocals
| TimeLocals (time_module : nat) (old_sleep : pyval)
| InOutLocals (old_in old_out old_err __old_in__ __old_out__ __old_err__ : pyval)
| RuntimeLocals (old_os old_io old_open old_eval old_exec old_argv : pyval).

(** [patch(self)] from its first statement to its [yield]: the world, the
    yielded value and the locals at the [yield], or the exception of a
    statement before the [try]. *)
Definition until_yield (c : PatchClass) (w : World) : outcome (World * pyval * locals) :=
  match c with
  | Patch => Returns (w, PyNone, PatchLocals)
  | TimePatch =>
      match getitem (sys_modules w) "time" with
      | Raises x => Raises x
      | Returns time_module =>
          match getattr w time_module "sleep", time_module with
          | Returns old_sleep, PyObj id =>
              Returns (set_made (setattr w id "sleep" (PyNoop (made w))) (S (made w)),
                       PyNone,
                       TimeLocals id old_sleep)
          | Returns _, _ => Raises (OtherException "AttributeError")
          | Raises x, _ => Raises x
          end
      end
  | InOutPatch =>
      let old_in := sys_stdin w in
      let old_out := sys_stdout w in
      let old_err := sys_stderr w in
      let a := PyStringIO (made w) in
      let b := PyStringIO (S (made w)) in
      let c := PyStringIO (S (S (made w))) in
      let w := set_made (set_std w a b c) (S (S (S (made w)))) in
      Returns (w,
               PyTuple [sys_stdin w; sys_stdout w; sys_stderr w],
               InOutLocals old_in old_out old_err
                 (sys_stdin w) (sys_stdout w) (sys_stderr w))
  | RuntimePatch name =>
      match getitem (sys_modules w) "os" with
      | Raises x => Raises x
      | Returns old_os =>
      match getitem (sys_modules w) "io" with
      | Raises x => Raises x
      | Returns old_io =>
      match getitem (builtins w) "open" with
      | Raises x => Raises x
      | Returns old_open =>
      match getitem (builtins w) "eval" with
      | Raises x => Raises x
      | Returns old_eval =>
      match getitem (builtins w) "exec" with
      | Raises x => Raises x
      | Returns old_exec =>
          let old_argv := sys_argv w in
          Returns (set_runtime w PyNone PyNone PyNone PyNone PyNone (PyList [PyStr name]),
                   PyNone,
                   RuntimeLocals old_os old_io old_open old_eval old_exec old_argv)
      end end end end end
  end.

(** The [finally] block of [patch(self)], with the locals of the [yield]. *)
Definition finally (l : locals) (w : World) : World :=
  match l with
  | PatchLocals => w
  | TimeLocals time_module old_sleep => setattr w time_module "sleep" old_sleep
  | InOutLocals old_in old_out old_err __old_in__ __old_out__ __old_err__ =>
      set_dunder_std (set_std w old_in old_out old_err) __old_in__ __old_out__ __old_err__
  | RuntimeLocals old_os old_io old_open old_eval old_exec old_argv =>
      set_runtime w old_os old_io old_open old_eval old_exec old_argv
  end.

(** A generator object. *)
Inductive genobj :=
| Created
| Suspended (l : locals)
| Finished.

(** An instance of a subclass of [Patch]; [generator] is [None] after
    [__exit__]. *)
Record instance := {
  class : PatchClass;
  generator : option genobj;
}.

(** [Patch.__init__]: [self.generator = self.patch()] makes the generator
    and runs nothing of it. *)
Definition __init__ (c : PatchClass) : instance :=
  {| class := c; generator := Some Created |}.

(** [next(g)] *)
Definition next (c : PatchClass) (g : genobj) (w : World)
    : genobj * World * outcome pyval :=
  match g with
  | Created =>
      match until_yield c w with
      | Returns (w, y, l) => (Suspended l, w, Returns y)
      | Raises x => (Finished, w, Raises x)
      end
  | Suspended l => (Finished, finally l w, Raises (OtherException "StopIteration"))
  | Finished => (Finished, w, Raises (OtherException "StopIteration"))
  end.

(** [__enter__]: [return next(self.generator)] *)
Definition __enter__ (self : instance) (w : World) : instance * World * outcome pyval :=
  match generator self with
  | None => (self, w, Raises (OtherException "TypeError"))
  | Some g =>
      let '(g, w, r) := next (class self) g w in
      ({| class := class self; generator := Some g |}, w, r)
  end.

(** [__exit__]: [self.generator = None], which closes a suspended
    generator, and [return False]. *)
Definition __exit__ (self : instance) (w : World) : instance * World * bool :=
  ({| class := class self; generator := None |},
   match generator self with
   | Some (Suspended l) => finally l w
   | _ => w
   end,
   false).

(** [with self as y: body]: [body] is any code, given the yielded value;
    it has no name for [self]. *)
Definition with_ (self : instance) (body : pyval → World → World * result) (w : World)
    : instance * World * result :=
  match __enter__ self w with
  | (self, w, Returns y) =>
      let '(w, r) := body y w in
      let '(self, w, handled) := __exit__ self w in
      (self, w, match r with
                | Normal => Normal
                | Raised x => if handled then Normal else Raised x
                end)
  | (self, w, Raises x) => (self, w, Raised x)
  end.

End runtime_patch.

(** An interpreter with the modules and builtins the patches look up. *)
Definition ex_world : runtime_patch.World :=
  {| runtime_patch.sys_modules :=
       {[ "time" := runtime_patch.PyObj 10; "os" := runtime_patch.PyObj 11;
          "io" := runtime_patch.PyObj 12 ]};
     runtime_patch.attrs := {[ 10 := {[ "sleep" := runtime_patch.PyObj 20 ]} ]};
     runtime_patch.sys_stdin := runtime_patch.PyObj 0;
     runtime_patch.sys_stdout := runtime_patch.PyObj 1;
     runtime_patch.sys_stderr := runtime_patch.PyObj 2;
     runtime_patch.sys___stdin__ := runtime_patch.PyObj 0;
     runtime_patch.sys___stdout__ := runtime_patch.PyObj 1;
     runtime_patch.sys___stderr__ := runtime_patch.PyObj 2;
     runtime_patch.sys_argv :=
       runtime_patch.PyList [runtime_patch.PyStr "turtle_judge.py"];
     runtime_patch.builtins :=
       {[ "open" := runtime_patch.PyObj 30; "eval" := runtime_patch.PyObj 31;
          "exec" := runtime_patch.PyObj 32; "print" := runtime_patch.PyObj 33 ]};
     runtime_patch.made := 0 |}.

(** The same interpreter with [exec] taken out of the builtins. *)
Definition ex_world_without_exec : runtime_patch.World :=
  {| runtime_patch.sys_modules := runtime_patch.sys_modules ex_world;
     runtime_patch.attrs := runtime_patch.attrs ex_world;
     runtime_patch.sys_stdin := runtime_patch.sys_stdin ex_world;
     runtime_patch.sys_stdout := runtime_patch.sys_stdout ex_world;
     runtime_patch.sys_stderr := runtime_patch.sys_stderr ex_world;
     runtime_patch.sys___stdin__ := runtime_patch.sys___stdin__ ex_world;
     runtime_patch.sys___stdout__ := runtime_patch.sys___stdout__ ex_world;
     runtime_patch.sys___stderr__ := runtime_patch.sys___stderr__ ex_world;
     runtime_patch.sys_argv := runtime_patch.sys_argv ex_world;
     runtime_patch.builtins := delete "exec" (runtime_patch.builtins ex_world);
     runtime_patch.made := 0 |}.

(** The number of pixels of each row of an image. *)
Definition shape (im : Image) : list nat := length <$> rows im.

(** The number of blocks open after the records [t], starting from [d]
    open blocks: a start record opens one, a close record closes one and
    needs one to close, an [escalate-status] record does neither. *)
Fixpoint open_blocks (d : nat) (t : list event) : option nat :=
  match t with
  | [] => Some d
  | ev :: t =>
      match at_site ev with
      | AtEnter => open_blocks (S d) t
      | AtExit => match d with O => None | S d => open_blocks d t end
      | AtEscalate => open_blocks d t
      end
  end.

(** * Properties *)

(** A record written at one call of [__print_command] is not written at
    another: turns a [Forall] on the site of the records of a list into the
    [Forall] the goal asks for. *)
Ltac other_site H :=
  eapply Forall_impl; [apply H|]; by intros ? ->.

(** ** What one handled signal leaves behind *)

Lemma strip_strip e : strip (strip e) = strip e.
Proof. reflexivity. Qed.

Lemma note_out_strip e : note_out (strip e) = [].
Proof. reflexivity. Qed.

Lemma cls_bookkeep self e : cls (bookkeep self e) = cls self.
Proof.
  unfold bookkeep. destruct (with_status (cls self)); simpl;
    destruct (with_accepted (cls self)); reflexivity.
Qed.

Lemma start_args_bookkeep self e : start_args (bookkeep self e) = start_args self.
Proof.
  unfold bookkeep. destruct (with_status (cls self)); simpl;
    destruct (with_accepted (cls self)); reflexivity.
Qed.

Lemma DodonaCommand_handle_dodona_exception_eq self e :
  DodonaCommand_handle_dodona_exception self e
  = (strip e, note_out e ++ escalation self e, isinstance self (recover_at e)).
Proof.
  unfold DodonaCommand_handle_dodona_exception, note_out, escalation, strip, escalate_record.
  destruct e as [st ra esc [m|]]; simpl;
    destruct (isinstance self ra); simpl;
    try destruct esc; simpl; rewrite ?app_nil_r; reflexivity.
Qed.

(** With an outcome descriptor in the status object the handler of every
    class returns. *)
Lemma handle_dodona_exception_returns self e :
  has_outcome (status e) →
  handle_dodona_exception self e
  = Returns (bookkeep self e, strip e,
             note_out e ++ escalation (bookkeep self e) e,
             isinstance self (recover_at e)).
Proof.
  intros [v Hv].
  unfold handle_dodona_exception, DodonaCommandWithStatus_handle_dodona_exception,
    DodonaCommandWithAccepted_handle_dodona_exception, bookkeep, accepted_of.
  destruct self as [c sa ca]; destruct c; simpl; rewrite ?Hv;
    rewrite DodonaCommand_handle_dodona_exception_eq; reflexivity.
Qed.


Lemma exit_dodona self e :
  has_outcome (status e) →
  __exit__ self (Some (Dodona e))
  = Returns (bookkeep self e, Some (Dodona (strip e)),
             (note_out e ++ escalation (bookkeep self e) e) ++ closing (bookkeep self e),
             isinstance self (recover_at e)).
Proof.
  intros H. unfold __exit__. rewrite handle_dodona_exception_returns by done.
  reflexivity.
Qed.

Lemma leave_dodona self e :
  has_outcome (status e) →
  leave self (Raised (Dodona e))
  = ((note_out e ++ escalation (bookkeep self e) e) ++ closing (bookkeep self e),
     if isinstance self (recover_at e) then Normal else Raised (Dodona (strip e))).
Proof.
  intros H. unfold leave. rewrite exit_dodona by done. reflexivity.
Qed.

Lemma leave_normal self : leave self Normal = (closing self, Normal).
Proof. reflexivity. Qed.

Lemma leave_other self what :
  leave self (Raised (OtherException what))
  = (closing self, Raised (OtherException what)).
Proof. reflexivity. Qed.

(** ** Well-nested output *)

Lemma well_nested_app t1 t2 :
  well_nested t1 → well_nested t2 → well_nested (t1 ++ t2).
Proof.
  intros H1 H2. induction H1 as [|c d rest _ IH|c d inner cl rest Hi _ Hc _ IH]; simpl.
  - exact H2.
  - constructor. exact IH.
  - rewrite <- !app_assoc. constructor; assumption.
Qed.

Lemma well_nested_empty_block c d cl :
  closes c cl → well_nested (Event AtEnter c d :: cl).
Proof.
  intros H. replace cl with ([] ++ cl ++ []) by (simpl; apply app_nil_r).
  constructor; [constructor | done | constructor].
Qed.

Lemma closes_closing self : closes (cls self) (closing self).
Proof.
  unfold closing. destruct (close_msg self); simpl; [right; eauto | by left].
Qed.

Lemma well_nested_with_pass m : well_nested (with_pass m).
Proof.
  unfold with_pass, __enter__. simpl.
  apply well_nested_empty_block, closes_closing.
Qed.

Lemma well_nested_note_out e : well_nested (note_out e).
Proof.
  unfold note_out. destruct (message e); [apply well_nested_with_pass | constructor].
Qed.

Lemma well_nested_escalation self e : well_nested (escalation self e).
Proof.
  unfold escalation. destruct (_ && _); repeat constructor.
Qed.

(** Executing code does not change which objects are entered, only their
    close fields. *)
Lemma cls_set_close self k v : cls (set_close self k v) = cls self.
Proof. reflexivity. Qed.

Lemma exec_classes c : ∀ stk stk' out r,
  exec c stk = (stk', out, r) → cls <$> stk' = cls <$> stk.
Proof.
  induction c as [|c1 IH1 c2 IH2|mgr body IH|lvl k v|st ra kw|what];
    intros stk stk' out r H; simpl in H.
  - by inversion H.
  - destruct (exec c1 stk) as [[stk1 o1] [|x]] eqn:E1.
    + destruct (exec c2 stk1) as [[stk2 o2] r2] eqn:E2. inversion H; subst.
      rewrite (IH2 _ _ _ _ E2). eapply IH1; eauto.
    + inversion H; subst. eapply IH1; eauto.
  - destruct (exec body (mgr :: stk)) as [[stk1 o1] r1] eqn:E1.
    apply IH in E1. destruct stk1 as [|self stk1]; [discriminate E1|].
    destruct (leave self r1) as [o2 r2]. inversion H; subst.
    simpl in E1. by inversion E1.
  - destruct (stk !! lvl) as [self|] eqn:E; inversion H; subst; [|done].
    apply list_eq. intros i. rewrite !list_lookup_fmap.
    destruct (decide (i = lvl)) as [->|Hne].
    + rewrite list_lookup_insert_eq by (by eapply lookup_lt_Some). by rewrite E.
    + by rewrite list_lookup_insert_ne.
  - by inversion H.
  - by inversion H.
Qed.

Lemma exec_length c stk stk' out r :
  exec c stk = (stk', out, r) → length stk' = length stk.
Proof.
  intros H. apply exec_classes in H.
  apply (f_equal length) in H. by rewrite !length_fmap in H.
Qed.

(** A well-nested stream does not begin with a close record, and a start
    record at its head opens a block. *)
Lemma well_nested_head ev t : well_nested (ev :: t) → at_site ev ≠ AtExit.
Proof. inversion 1; discriminate. Qed.

Lemma well_nested_block_inv c d t :
  well_nested (Event AtEnter c d :: t) →
  ∃ inner cl rest,
    t = inner ++ cl ++ rest ∧ well_nested inner ∧ closes c cl ∧ well_nested rest.
Proof. inversion 1; subst; eauto 10. Qed.

(** A close record without a start record is not well-nested. *)
Example lone_close_not_well_nested c d : ¬ well_nested [Event AtExit c d].
Proof. intros H. by apply well_nested_head in H. Qed.

Lemma close_of_other_block_not_well_nested d2 d3 t :
  ¬ well_nested (Event AtEnter Context d2 :: Event AtExit Tab d3 :: t).
Proof.
  intros H. apply well_nested_block_inv in H as (i & c & r & E & Hi & Hc & Hr).
  destruct i as [|ev i]; simpl in E.
  - destruct Hc as [->|[d ->]]; simpl in E.
    + subst r. by apply well_nested_head in Hr.
    + discriminate E.
  - injection E as <- _. by apply well_nested_head in Hi.
Qed.

(** Neither are two blocks that overlap: tab and context started, the tab
    closed before the context. *)
Example overlap_not_well_nested d1 d2 d3 d4 :
  ¬ well_nested [Event AtEnter Tab d1; Event AtEnter Context d2;
                 Event AtExit Tab d3; Event AtExit Context d4].
Proof.
  intros H. apply well_nested_block_inv in H as (i & c & r & E & Hi & Hc & Hr).
  destruct i as [|ev i]; simpl in E.
  - destruct Hc as [->|[d ->]]; simpl in E; [|discriminate E].
    subst r. by apply close_of_other_block_not_well_nested in Hr.
  - injection E as <- E. destruct i as [|ev i]; simpl in E.
    + destruct Hc as [->|[d ->]]; simpl in E.
      * subst r. by apply well_nested_head in Hr.
      * injection E as _ <-. by apply well_nested_head in Hr.
    + injection E as <- _.
      by apply close_of_other_block_not_well_nested in Hi.
Qed.

(** What the end of a [with] statement writes: a well-nested stream of the
    handler, then at most one close record. *)
Lemma leave_shape self r :
  ∃ h cl, (leave self r).1 = h ++ cl ∧ well_nested h ∧ closes (cls self) cl.
Proof.
  destruct r as [|[e|what]].
  - exists [], (closing self). repeat split; [constructor | apply closes_closing].
  - unfold leave, __exit__.
    destruct (handle_dodona_exception self e) as [[[[self' e'] out] handled]|x] eqn:E.
    + exists out, (closing self'). simpl. split; [done|].
      assert (cls self' = cls self ∧ well_nested out) as [Hc Hw].
      { unfold handle_dodona_exception, DodonaCommandWithStatus_handle_dodona_exception,
          DodonaCommandWithAccepted_handle_dodona_exception in E.
        destruct (resolve defines_handle (cls self)) as [[]|];
          simpl in E; try destruct (status e !! "enum");
          try discriminate E;
          rewrite DodonaCommand_handle_dodona_exception_eq in E; inversion E; subst; simpl;
          (split; [reflexivity|]);
          apply well_nested_app;
          auto using well_nested_note_out, well_nested_escalation. }
      split; [done|]. rewrite <- Hc. apply closes_closing.
    + exists [], []. repeat split; [constructor | by left].
  - exists [], (closing self). repeat split; [constructor | apply closes_closing].
Qed.





Lemma same_block_bookkeep self e : same_block (bookkeep self e) self.
Proof. split; [apply cls_bookkeep | apply start_args_bookkeep]. Qed.





(** The first record of a [with] statement is the start record of its
    object, and what its body writes comes right after it: a stream that
    lacks the start record, or has a record of the body before it, is not
    what the statement writes. *)
Lemma records_of_with_inv mgr body t ok :
  records_of (With mgr body) t ok →
  ∃ inside after ok',
    t = start_record mgr :: inside ++ after ∧ records_of body inside ok'.
Proof. inversion 1; subst; eauto 10. Qed.

Example with_without_start_record mgr body ok : ¬ records_of (With mgr body) [] ok.
Proof. intros H. apply records_of_with_inv in H as (? & ? & ? & [=] & _). Qed.

Example child_before_parent_start t ok :
  ¬ records_of (With ex_judgement (With ex_tab Pass)) (start_record ex_tab :: t) ok.
Proof.
  intros H. apply records_of_with_inv in H as (? & ? & ? & E & _).
  injection E as E _. discriminate E.
Qed.


(** ** Raise sites *)

Lemma propagate_app x frames1 frames2 :
  propagate x (frames1 ++ frames2)
  = match propagate x frames1 with
    | (out, Raised x') =>
        let '(out', r) := propagate x' frames2 in (out ++ out', r)
    | (out, Normal) => (out, Normal)
    end.
Proof.
  revert x. induction frames1 as [|self frames1 IH]; intros x; simpl.
  - by destruct (propagate x frames2).
  - destruct (leave self (Raised x)) as [o [|x1]]; [done|].
    rewrite IH. destruct (propagate x1 frames1) as [o1 [|x2]]; [done|].
    destruct (propagate x2 frames2) as [o2 r2]. by rewrite app_assoc.
Qed.

Lemma reach_classes k : ∀ stk stk' out,
  reach k stk = Some (stk', out) →
  cls <$> stk' = rev (cls <$> managers k) ++ (cls <$> stk).
Proof.
  induction k as [|mgr k IH|pre k IH|k IH post]; intros stk stk' out H; simpl in *.
  - by inversion H.
  - destruct (reach k (mgr :: stk)) as [[s o]|] eqn:E; inversion H; subst.
    rewrite (IH _ _ _ E). simpl. by rewrite <- app_assoc.
  - destruct (exec pre stk) as [[s1 o1] [|x]] eqn:E1; [|done].
    destruct (reach k s1) as [[s o]|] eqn:E; inversion H; subst.
    rewrite (IH _ _ _ E). by rewrite (exec_classes _ _ _ _ _ E1).
  - eauto.
Qed.

Lemma reach_length k stk stk' out :
  reach k stk = Some (stk', out) → length stk' = depth k + length stk.
Proof.
  intros H. apply reach_classes in H. apply (f_equal length) in H.
  rewrite length_app, length_rev, !length_fmap in H. exact H.
Qed.

(** An exception raised at the marked place, and swallowed by none of the
    blocks around it, leaves them in turn. *)
Lemma exec_plug_raised k c : ∀ stk stk_h out_h stk1 o x x',
  reach k stk = Some (stk_h, out_h) →
  exec c stk_h = (stk1, o, Raised x) →
  (propagate x (take (depth k) stk1)).2 = Raised x' →
  exec (plug k c) stk
  = (drop (depth k) stk1,
     out_h ++ o ++ (propagate x (take (depth k) stk1)).1,
     Raised x').
Proof.
  unfold depth.
  induction k as [|mgr k IH|pre k IH|k IH post];
    intros stk stk_h out_h stk1 o x x' Hr Hc Hp; simpl in *.
  - inversion Hr; subst. rewrite drop_0. simpl in *.
    inversion Hp; subst. by rewrite app_nil_r.
  - destruct (reach k (mgr :: stk)) as [[s oh]|] eqn:E; inversion Hr; subst.
    pose proof (reach_length _ _ _ _ E) as Hlen.
    pose proof (exec_length _ _ _ _ _ Hc) as Hlen1.
    unfold depth in *. simpl in *.
    destruct (lookup_lt_is_Some_2 stk1 (length (managers k))) as [self Hs]; [lia|].
    pose proof (take_S_r _ _ _ Hs) as Ht.
    pose proof (drop_S _ _ _ Hs) as Ed.
    set (rest := drop (S (length (managers k))) stk1) in *.
    rewrite Ht in *. rewrite propagate_app in *.
    destruct (propagate x (take (length (managers k)) stk1)) as [o1 [|x1]] eqn:Ep;
      [discriminate Hp|].
    rewrite (IH _ _ _ _ _ _ x1 E Hc) by (by rewrite Ep).
    rewrite Ed, Ep. simpl in *.
    destruct (leave self (Raised x1)) as [o2 [|x2]]; simpl in *; [discriminate Hp|].
    inversion Hp; subst. by rewrite !app_nil_r, <- !app_assoc.
  - destruct (exec pre stk) as [[s1 o1] [|y]] eqn:E1; [|done].
    destruct (reach k s1) as [[s oh]|] eqn:E; inversion Hr; subst.
    rewrite (IH _ _ _ _ _ _ _ E Hc Hp). by rewrite <- !app_assoc.
  - by rewrite (IH _ _ _ _ _ _ _ Hr Hc Hp).
Qed.

Lemma escalation_cls self self' e :
  cls self' = cls self → escalation self' e = escalation self e.
Proof. unfold escalation, isinstance. by intros ->. Qed.

Lemma escalation_pass self e :
  isinstance self (recover_at e) = false → escalation self e = [].
Proof. unfold escalation. by intros ->. Qed.

(** A signal that none of [frames] claims: the first of them prints the
    note, each of them its close record, and the signal goes on without its
    note. *)
Lemma propagate_pass frames : ∀ e,
  has_outcome (status e) →
  Forall (λ self, isinstance self (recover_at e) = false) frames →
  propagate (Dodona e) frames
  = (match frames with [] => [] | _ => note_out e end ++ closings e frames,
     Raised (Dodona (match frames with [] => e | _ => strip e end))).
Proof.
  induction frames as [|self frames IH]; intros e Ho Hf; [done|].
  inversion Hf as [|? ? Hs Hf']; subst. simpl.
  rewrite leave_dodona by done. rewrite Hs.
  rewrite (escalation_cls self) by apply cls_bookkeep.
  rewrite escalation_pass by done.
  rewrite (IH (strip e)) by done.
  rewrite app_nil_r. unfold closings. simpl.
  destruct frames; simpl; by rewrite <- ?app_assoc.
Qed.

Lemma frames_pass k stk stk_h out_h c :
  reach k stk = Some (stk_h, out_h) →
  Forall (λ mgr, issubclass (cls mgr) c = false) (managers k) →
  Forall (λ self, issubclass (cls self) c = false) (take (depth k) stk_h).
Proof.
  intros Hr Hf. apply reach_classes in Hr.
  apply (Forall_fmap cls (λ d, issubclass d c = false)).
  rewrite fmap_take, Hr.
  rewrite take_app_length' by (unfold depth; by rewrite length_rev, length_fmap).
  apply Forall_rev. by apply Forall_fmap.
Qed.

(** A signal raised at the marked place of [k], inside the block [m] that
    claims it while no block of [k] does. *)
Lemma exec_claimed m k st ra kw stk stk_h out_h :
  let e := DodonaException_init st ra kw in
  has_outcome st →
  reach k (m :: stk) = Some (stk_h, out_h) →
  Forall (λ mgr, isinstance mgr (recover_at e) = false) (managers k) →
  isinstance m (recover_at e) = true →
  ∃ m',
    stk_h !! depth k = Some m' ∧ cls m' = cls m ∧
    exec (plug k (RaiseDodona st ra kw)) (m :: stk)
    = (drop (depth k) stk_h,
       out_h ++ match take (depth k) stk_h with [] => [] | _ => note_out e end
             ++ closings e (take (depth k) stk_h),
       Raised (Dodona (match take (depth k) stk_h with [] => e | _ => strip e end))) ∧
    exec (With m (plug k (RaiseDodona st ra kw))) stk
    = (drop (S (depth k)) stk_h,
       __enter__ m ++ out_h ++ note_out e ++ closings e (take (depth k) stk_h)
         ++ escalation m e ++ closing (bookkeep m' e),
       Normal).
Proof.
  intros e Ho Hr Hf Hm.
  pose proof (reach_length _ _ _ _ Hr) as Hlen. simpl in Hlen.
  pose proof (reach_classes _ _ _ _ Hr) as Hcls.
  destruct (lookup_lt_is_Some_2 stk_h (depth k)) as [m' Hm']; [lia|].
  assert (cls m' = cls m) as Hc.
  { apply (f_equal (λ l, l !! depth k)) in Hcls.
    rewrite list_lookup_fmap, Hm' in Hcls. simpl in Hcls.
    rewrite lookup_app_r in Hcls by (unfold depth; by rewrite length_rev, length_fmap).
    rewrite length_rev, length_fmap in Hcls. unfold depth in Hcls.
    rewrite Nat.sub_diag in Hcls. simpl in Hcls. by inversion Hcls. }
  pose proof (frames_pass _ _ _ _ _ Hr Hf) as Hpass.
  assert (exec (RaiseDodona st ra kw) stk_h = (stk_h, [], Raised (Dodona e)))
    as Hraise by reflexivity.
  pose proof (propagate_pass _ e Ho Hpass) as Hp.
  pose proof (exec_plug_raised k _ _ _ _ _ _ _ _ Hr Hraise
                (f_equal snd Hp)) as Hin.
  rewrite Hp in Hin. simpl in Hin.
  exists m'. split; [done|]. split; [done|]. split; [exact Hin|].
  simpl. rewrite Hin. rewrite (drop_S _ _ _ Hm').
  set (e1 := match take (depth k) stk_h with [] => e | _ => strip e end).
  assert (status e1 = status e ∧ recover_at e1 = recover_at e
          ∧ escalate_status e1 = escalate_status e) as (Hs1 & Hr1 & He1).
  { unfold e1. by destruct (take (depth k) stk_h). }
  rewrite leave_dodona by (by rewrite Hs1).
  rewrite (escalation_cls m) by (by rewrite cls_bookkeep).
  unfold isinstance in *. rewrite Hr1, Hc, Hm.
  replace (bookkeep m' e1) with (bookkeep m' e)
    by (unfold bookkeep; by rewrite Hs1).
  replace (escalation m e1) with (escalation m e)
    by (unfold escalation, escalate_record, isinstance; by rewrite Hr1, He1, Hs1).
  f_equal. f_equal. f_equal. rewrite <- !app_assoc. f_equal.
  unfold e1. destruct (take (depth k) stk_h); simpl; by rewrite ?app_nil_r.
Qed.

(** ** Facts about single records *)

Lemma command_record_lookup c d k v :
  d !! k = Some v → command_record c d !! k = Some v.
Proof. intros H. unfold command_record. by apply lookup_union_Some_l. Qed.

Lemma command_record_fresh c d :
  d !! "command" = None → command_record c d !! "command" = Some (VStr c).
Proof.
  intros H. unfold command_record.
  rewrite lookup_union_r by done. apply lookup_singleton_eq.
Qed.

Lemma closing_eq self :
  closing self
  = if has_close (cls self)
    then [Event AtExit (cls self)
            (command_record ("close-" ++ name self)%string (close_args self))]
    else [].
Proof. unfold closing, close_msg. destruct self as [[] sa ca]; reflexivity. Qed.

Lemma with_accepted_has_close c : with_accepted c = true → has_close c = true.
Proof. by destruct c. Qed.

Lemma bookkeep_accepted self e :
  with_accepted (cls self) = true →
  close_args (bookkeep self e) !! "accepted" = Some (VBool (accepted_of (status e))).
Proof.
  intros H. unfold bookkeep.
  destruct self as [c sa ca]; destruct c; simpl in *; try discriminate H;
    by simplify_map_eq.
Qed.

Lemma bookkeep_status self e :
  with_status (cls self) = true →
  close_args (bookkeep self e) !! "status" = Some (VDict (status e)).
Proof.
  intros H. unfold bookkeep.
  destruct self as [c sa ca]; destruct c; simpl in *; try discriminate H;
    by simplify_map_eq.
Qed.

Lemma bookkeep_plain self e :
  with_accepted (cls self) = false → bookkeep self e = self.
Proof.
  intros H. unfold bookkeep.
  destruct self as [c sa ca]; destruct c; simpl in *; try discriminate H; done.
Qed.

Lemma closing_bookkeep_fields self e :
  Forall (derived_fields (status e)) (closing (bookkeep self e)).
Proof.
  rewrite closing_eq, cls_bookkeep.
  destruct (has_close (cls self)); constructor; [|constructor].
  split; simpl; intros H; apply command_record_lookup;
    [by apply bookkeep_accepted | by apply bookkeep_status].
Qed.

Lemma closing_sites self : Forall (λ ev, at_site ev = AtExit) (closing self).
Proof. rewrite closing_eq. destruct (has_close _); repeat constructor. Qed.

Lemma closings_sites e frames :
  Forall (λ ev, at_site ev = AtExit) (closings e frames).
Proof.
  induction frames as [|self frames IH]; [constructor|].
  unfold closings. simpl. apply Forall_app. split; [apply closing_sites | exact IH].
Qed.

Lemma closings_fields e frames :
  Forall (derived_fields (status e)) (closings e frames).
Proof.
  induction frames as [|self frames IH]; [constructor|].
  unfold closings. simpl. apply Forall_app.
  split; [apply closing_bookkeep_fields | exact IH].
Qed.

(** The blocks that write a close record, in the order of their records. *)
Lemma closings_emitters e frames :
  emitter <$> closings e frames
  = filter (λ c, has_close c = true) (cls <$> frames).
Proof.
  induction frames as [|self frames IH]; [done|].
  unfold closings in *. simpl. rewrite fmap_app, IH, closing_eq, cls_bookkeep.
  destruct (has_close (cls self)) eqn:E; simpl.
  - by rewrite filter_cons_True.
  - rewrite filter_cons_False; [done | by rewrite E].
Qed.

Lemma note_out_init st ra kw :
  note_out (DodonaException_init st ra kw)
  = if decide (0 < size kw) then [note_event kw] else [].
Proof.
  unfold note_out, DodonaException_init. simpl.
  destruct (decide (0 < size kw)); reflexivity.
Qed.

Lemma note_out_init_sites st ra kw :
  Forall (λ ev, at_site ev = AtEnter) (note_out (DodonaException_init st ra kw)).
Proof. rewrite note_out_init. destruct (decide _); repeat constructor. Qed.

Lemma isinstance_Judgement self :
  isinstance self Judgement = bool_decide (cls self = Judgement).
Proof. destruct self as [[] sa ca]; reflexivity. Qed.

(** ** The close record on every way out *)



(** A [Message] left by a failure signal that carries a note: its close
    message prints nothing, and its handler, that of every class, prints
    the note of the signal. *)
Lemma Message_exit_prints_note :
  __exit__ ex_note (Some (Dodona ex_signal))
  = Returns (ex_note, Some (Dodona (strip ex_signal)), [note_event ex_kwargs], false)
  ∧ ¬ ∃ self' x handled,
        __exit__ ex_note (Some (Dodona ex_signal)) = Returns (self', x, [], handled).
Proof.
  split; [vm_compute; reflexivity|].
  intros (self' & x & handled & H). vm_compute in H. discriminate H.
Qed.

(** ** Signals without a recover point *)

(** [C3] A failure signal raised with no [recover_at], at a place [k] inside
    a [Judgement] block [root] (no block of [k] being a [Judgement] itself):
    it leaves all the blocks of [k] as an exception, [root] swallows it, no
    record written from the raise to the close of [root] is an
    [escalate-status] record, and the close record of [root] has the status
    object of the signal in its [status] field. *)
Theorem default_signal_caught_at_root
    (root : instance) (k : ctx) (st kw : dict)
    (stk stk_h : list instance) (out_h : list event) :
  cls root = Judgement →
  Forall (λ mgr, cls mgr ≠ Judgement) (managers k) →
  has_outcome st →
  reach k (root :: stk) = Some (stk_h, out_h) →
  ∃ e' handling close_fields,
    (exec (plug k (RaiseDodona st None kw)) (root :: stk)).2 = Raised (Dodona e')
    ∧ status e' = st
    ∧ exec (With root (plug k (RaiseDodona st None kw))) stk
      = (drop (S (depth k)) stk_h,
         __enter__ root ++ out_h ++ handling
           ++ [Event AtExit Judgement (command_record "close-judgement" close_fields)],
         Normal)
    ∧ Forall (λ ev, at_site ev ≠ AtEscalate) handling
    ∧ command_record "close-judgement" close_fields !! "status" = Some (VDict st).
Proof.
  intros Hroot Hk Ho Hr.
  destruct (exec_claimed root k st None kw stk stk_h out_h Ho Hr)
    as (root' & _ & Hc & Hin & Hout).
  { simpl. eapply Forall_impl; [exact Hk|]. intros mgr Hm. simpl in Hm.
    rewrite isinstance_Judgement. by apply bool_decide_eq_false. }
  { simpl. rewrite isinstance_Judgement. by apply bool_decide_eq_true. }
  set (e := DodonaException_init st None kw) in *.
  exists (match take (depth k) stk_h with [] => e | _ => strip e end),
    (note_out e ++ closings e (take (depth k) stk_h)),
    (close_args (bookkeep root' e)).
  split; [by rewrite Hin|].
  split; [by destruct (take (depth k) stk_h)|].
  split.
  - rewrite Hout. unfold escalation. simpl. rewrite andb_false_r. simpl.
    rewrite closing_eq. unfold name. rewrite !cls_bookkeep, Hc, Hroot. simpl.
    by rewrite <- !app_assoc.
  - split.
    + apply Forall_app. split.
      * other_site note_out_init_sites.
      * other_site closings_sites.
    + apply command_record_lookup. apply (bookkeep_status root' e).
      by rewrite Hc, Hroot.
Qed.

Lemma default_signal_caught_at_root_witness :
  result_of (With ex_judgement (plug ex_site (RaiseDodona wrong_answer None ex_kwargs)))
  = Normal
  ∧ ∃ close_record,
      last (stdout_of
              (With ex_judgement (plug ex_site (RaiseDodona wrong_answer None ex_kwargs))))
      = Some close_record
      ∧ close_record !! "status" = Some (VDict wrong_answer).
Proof.
  destruct (default_signal_caught_at_root ex_judgement ex_site wrong_answer ex_kwargs []
              (from_option fst [] (reach ex_site [ex_judgement]))
              (from_option snd [] (reach ex_site [ex_judgement])))
    as (e' & handling & close_fields & _ & _ & He & _ & Hs).
  - reflexivity.
  - repeat constructor; discriminate.
  - by eexists.
  - vm_compute. reflexivity.
  - unfold result_of, stdout_of. rewrite He. cbn [fst snd].
    split; [reflexivity|]. eexists. split; [|exact Hs].
    rewrite !app_assoc, fmap_app. apply last_snoc.
Defined.

(** ** Signals with a recover point *)

Lemma filter_all {A} (P : A → Prop) `{∀ x, Decision (P x)} (l : list A) :
  Forall P l → filter P l = l.
Proof.
  induction 1 as [|x l Hx _ IH]; [done|]. by rewrite filter_cons_True, IH.
Qed.

Lemma filter_none {A} (P : A → Prop) `{∀ x, Decision (P x)} (l : list A) :
  Forall (λ x, ¬ P x) l → filter P l = [].
Proof.
  induction 1 as [|x l Hx _ IH]; [done|]. by rewrite filter_cons_False, IH.
Qed.

Lemma frames_classes k stk stk_h out_h :
  reach k stk = Some (stk_h, out_h) →
  cls <$> take (depth k) stk_h = rev (cls <$> managers k).
Proof.
  intros Hr. apply reach_classes in Hr. rewrite fmap_take, Hr.
  apply take_app_length'. unfold depth. by rewrite length_rev, length_fmap.
Qed.

(** What is written from the raise of a signal with recover point [c] to
    the moment the claiming block [m] has swallowed it. *)
Lemma explicit_handling m k st c kw stk stk_h out_h :
  let e := DodonaException_init st (Some c) kw in
  has_outcome st →
  reach k (m :: stk) = Some (stk_h, out_h) →
  Forall (λ mgr, isinstance mgr c = false) (managers k) →
  isinstance m c = true →
  ∃ m',
    cls m' = cls m ∧
    exec (With m (plug k (RaiseDodona st (Some c) kw))) stk
    = (drop (S (depth k)) stk_h,
       __enter__ m ++ out_h
         ++ (note_out e ++ closings e (take (depth k) stk_h))
         ++ [Event AtEscalate (cls m) (escalate_record e)]
         ++ closing (bookkeep m' e),
       Normal).
Proof.
  intros e Ho Hr Hk Hm.
  destruct (exec_claimed m k st (Some c) kw stk stk_h out_h Ho Hr Hk Hm)
    as (m' & _ & Hc & _ & Hout).
  exists m'. split; [done|]. rewrite Hout. fold e.
  unfold escalation. simpl. rewrite Hm. simpl. by rewrite <- !app_assoc.
Qed.

(** [C4], as stated, fails: a signal raised in a tab in a context, with the
    context as recover point, leaves the tab without an [escalate-status]
    record of the tab; stdout has one record with that command for the two
    blocks. *)
Lemma tab_does_not_escalate :
  ¬ each_block_escalates [ex_tab; ex_context] wrong_answer
      (exec (With ex_context
               (plug ex_inner (RaiseDodona wrong_answer (Some Context) ∅))) []).1.2
  ∧ length (filter (λ ev, command_is "escalate-status" ev = true)
              (exec (With ex_context
                 (plug ex_inner (RaiseDodona wrong_answer (Some Context) ∅))) []).1.2)
    = 1.
Proof.
  split; [|vm_compute; reflexivity].
  intros H. destruct (H ex_tab) as (ev & Hin & Hs & He & _); [by left|].
  assert (ev ∈ filter (λ ev, at_site ev = AtEscalate ∧ emitter ev = Tab)
            (exec (With ex_context
               (plug ex_inner (RaiseDodona wrong_answer (Some Context) ∅))) []).1.2)
    as Hf by (by apply list_elem_of_filter).
  vm_compute in Hf. inversion Hf.
Qed.

(** [C4], as amended. A failure signal raised with recover point [c], at a
    place [k] inside a block [m] that is an instance of [c] while no block
    of [k] is: [m] swallows it; the blocks of [k] write their close records
    and no [escalate-status] record; then [m], and only [m], writes one
    [escalate-status] record with the status object of the signal, before
    its own close record. *)
Theorem escalation_only_at_claiming_block
    (m : instance) (k : ctx) (st : dict) (c : Class) (kw : dict)
    (stk stk_h : list instance) (out_h : list event) :
  has_outcome st →
  reach k (m :: stk) = Some (stk_h, out_h) →
  Forall (λ mgr, isinstance mgr c = false) (managers k) →
  isinstance m c = true →
  ∃ passing cl,
    exec (With m (plug k (RaiseDodona st (Some c) kw))) stk
    = (drop (S (depth k)) stk_h,
       __enter__ m ++ out_h ++ passing
         ++ [Event AtEscalate (cls m)
               (<["command" := VStr "escalate-status"]> {[ "status" := VDict st ]})]
         ++ cl,
       Normal)
    ∧ Forall (λ ev, at_site ev ≠ AtEscalate) passing
    ∧ emitter <$> filter (λ ev, at_site ev = AtExit) passing
      = filter (λ d, has_close d = true) (rev (cls <$> managers k))
    ∧ Forall (λ ev, at_site ev = AtExit ∧ emitter ev = cls m) cl.
Proof.
  intros Ho Hr Hk Hm.
  destruct (explicit_handling m k st c kw stk stk_h out_h Ho Hr Hk Hm)
    as (m' & Hc & Hout).
  set (e := DodonaException_init st (Some c) kw) in *.
  exists (note_out e ++ closings e (take (depth k) stk_h)), (closing (bookkeep m' e)).
  split; [exact Hout|]. split; [|split].
  - apply Forall_app. split.
    + other_site note_out_init_sites.
    + other_site closings_sites.
  - rewrite filter_app.
    rewrite (filter_none _ (note_out e)).
    2:{ other_site note_out_init_sites. }
    rewrite (filter_all _ (closings e _)) by apply closings_sites.
    simpl. rewrite closings_emitters. by erewrite frames_classes.
  - rewrite closing_eq, cls_bookkeep, Hc.
    destruct (has_close (cls m)); repeat constructor.
Qed.

Lemma escalation_only_at_claiming_block_witness :
  filter (λ ev, at_site ev = AtEscalate)
    (exec (With ex_context
             (plug ex_inner (RaiseDodona wrong_answer (Some Context) ∅))) []).1.2
  = [Event AtEscalate Context
       (<["command" := VStr "escalate-status"]> {[ "status" := VDict wrong_answer ]})].
Proof.
  destruct (escalation_only_at_claiming_block ex_context ex_inner wrong_answer
              Context ∅ [] [ex_tab; ex_context] (__enter__ ex_tab))
    as (passing & cl & He & Hp & _ & Hcl).
  - by eexists.
  - vm_compute. reflexivity.
  - repeat constructor.
  - reflexivity.
  - rewrite He. cbn [fst snd]. rewrite !filter_app.
    rewrite (filter_none _ passing).
    2:{ eapply Forall_impl; [exact Hp|]. intros ev Hev. exact Hev. }
    rewrite (filter_none _ cl).
    2:{ eapply Forall_impl; [exact Hcl|]. intros ev [-> _]. discriminate. }
    vm_compute. reflexivity.
Defined.

(** [C5] A failure signal raised with recover point [c], at a place [k]
    inside a block [m] that is an instance of [c] while no block of [k] is:
    from the raise to the end of [m] exactly one [escalate-status] record is
    written, by [m]; every block of [k] and [m] itself writes its close
    record (if its class has one, as every class with an [accepted] field
    does), innermost first; and each of these close records has the
    [accepted] field derived from the status if the class of its block has
    that field, and the status object in its [status] field if the class
    has that field. *)
Theorem explicit_signal_updates_every_level
    (m : instance) (k : ctx) (st : dict) (c : Class) (kw : dict)
    (stk stk_h : list instance) (out_h : list event) :
  has_outcome st →
  reach k (m :: stk) = Some (stk_h, out_h) →
  Forall (λ mgr, isinstance mgr c = false) (managers k) →
  isinstance m c = true →
  ∃ handling,
    exec (With m (plug k (RaiseDodona st (Some c) kw))) stk
    = (drop (S (depth k)) stk_h, __enter__ m ++ out_h ++ handling, Normal)
    ∧ filter (λ ev, at_site ev = AtEscalate) handling
      = [Event AtEscalate (cls m)
           (<["command" := VStr "escalate-status"]> {[ "status" := VDict st ]})]
    ∧ emitter <$> filter (λ ev, at_site ev = AtExit) handling
      = filter (λ d, has_close d = true) (rev (cls <$> managers k) ++ [cls m])
    ∧ Forall (λ ev, at_site ev = AtExit →
                (with_accepted (emitter ev) = true →
                 record ev !! "accepted" = Some (VBool (accepted_of st)))
                ∧ (with_status (emitter ev) = true →
                   record ev !! "status" = Some (VDict st)))
        handling.
Proof.
  intros Ho Hr Hk Hm.
  destruct (explicit_handling m k st c kw stk stk_h out_h Ho Hr Hk Hm)
    as (m' & Hc & Hout).
  set (e := DodonaException_init st (Some c) kw) in *.
  assert (Forall (λ ev, at_site ev = AtEnter) (note_out e)) as Hn
    by apply note_out_init_sites.
  pose proof (closings_sites e (take (depth k) stk_h)) as Hcs.
  pose proof (closing_sites (bookkeep m' e)) as Hcm.
  eexists. split; [exact Hout|]. split; [|split].
  - rewrite !filter_app.
    rewrite (filter_none _ (note_out e))
      by (other_site Hn).
    rewrite (filter_none _ (closings e _))
      by (other_site Hcs).
    rewrite (filter_none _ (closing _))
      by (other_site Hcm).
    reflexivity.
  - rewrite !filter_app.
    rewrite (filter_none _ (note_out e))
      by (other_site Hn).
    rewrite (filter_all _ (closings e _)) by exact Hcs.
    rewrite (filter_all _ (closing _)) by exact Hcm.
    rewrite filter_cons_False by (simpl; discriminate).
    simpl. rewrite fmap_app, closings_emitters.
    erewrite frames_classes by exact Hr.
    rewrite closing_eq, cls_bookkeep, Hc.
    destruct (has_close (cls m)) eqn:E; simpl.
    + by rewrite filter_cons_True.
    + rewrite filter_cons_False by (by rewrite E). done.
  - repeat (apply Forall_app; split).
    + eapply Forall_impl; [exact Hn|]. intros ev -> [=].
    + eapply Forall_impl; [apply (closings_fields e)|]. by intros ev Hev _.
    + apply Forall_singleton. simpl. intros [=].
    + eapply Forall_impl; [apply (closing_bookkeep_fields m' e)|]. by intros ev Hev _.
Qed.

Lemma explicit_signal_updates_every_level_witness :
  ∃ handling,
    (exec (With ex_context
             (plug (InWith ex_testcase (InWith ex_test ex_inner))
                (RaiseDodona wrong_answer (Some Context) ex_kwargs))) []).1.2
    = __enter__ ex_context ++ (__enter__ ex_testcase ++ __enter__ ex_test ++ __enter__ ex_tab) ++ handling
    ∧ emitter <$> filter (λ ev, at_site ev = AtExit) handling
      = [Tab; Test; TestCase; Context]
    ∧ length (filter (λ ev, at_site ev = AtEscalate) handling) = 1.
Proof.
  destruct (explicit_signal_updates_every_level ex_context
              (InWith ex_testcase (InWith ex_test ex_inner))
              wrong_answer Context ex_kwargs []
              [ex_tab; ex_test; ex_testcase; ex_context]
              (__enter__ ex_testcase ++ __enter__ ex_test ++ __enter__ ex_tab))
    as (handling & He & Hesc & Hcl & _).
  - by eexists.
  - vm_compute. reflexivity.
  - repeat constructor.
  - reflexivity.
  - exists handling. rewrite He, Hesc, Hcl. cbn [fst snd].
    split; [reflexivity|]. split; [vm_compute; reflexivity | reflexivity].
Defined.

(** ** The note of a signal *)



(** ** The derived [accepted] field *)

(** [C6] When a block of a class with an [accepted] field handles a failure
    signal whose status has the outcome descriptor [d] of the enumeration,
    the handler returns with the close field [accepted] set to true if [d]
    is [CORRECT] or [CORRECT_ANSWER] and to false for each of the other
    eight; [__exit__] then writes it in the close record. *)
Theorem accepted_iff_correct (self : instance) (e : DodonaException) (d : ErrorType) :
  with_accepted (cls self) = true →
  status e !! "enum" = Some (VStr (ErrorType_value d)) →
  ∃ self' e' out handled,
    handle_dodona_exception self e = Returns (self', e', out, handled)
    ∧ close_args self' !! "accepted"
      = Some (VBool (bool_decide (d = CORRECT ∨ d = CORRECT_ANSWER)))
    ∧ ∃ out' ev,
        __exit__ self (Some (Dodona e)) = Returns (self', Some (Dodona e'), out', handled)
        ∧ last out' = Some ev
        ∧ at_site ev = AtExit
        ∧ record ev !! "accepted"
          = Some (VBool (bool_decide (d = CORRECT ∨ d = CORRECT_ANSWER))).
Proof.
  intros Hacc Hd.
  assert (has_outcome (status e)) as Ho by (by eexists).
  assert (accepted_of (status e) = bool_decide (d = CORRECT ∨ d = CORRECT_ANSWER)) as Ha.
  { unfold accepted_of. rewrite Hd. destruct d; vm_compute; reflexivity. }
  pose proof (bookkeep_accepted self e Hacc) as Hb. rewrite Ha in Hb.
  eexists _, _, _, _. split; [by apply handle_dodona_exception_returns|].
  split; [exact Hb|].
  eexists _, _. split; [by apply exit_dodona|].
  rewrite closing_eq, cls_bookkeep, (with_accepted_has_close _ Hacc).
  split; [apply last_snoc|]. split; [reflexivity|].
  simpl. by apply command_record_lookup.
Qed.

Lemma accepted_iff_correct_witness :
  ∃ self',
    (∃ e' out handled,
       handle_dodona_exception ex_testcase ex_signal = Returns (self', e', out, handled))
    ∧ close_args self' !! "accepted" = Some (VBool false).
Proof.
  destruct (accepted_iff_correct ex_testcase ex_signal WRONG_ANSWER)
    as (self' & e' & out & handled & Hh & Ha & _).
  - reflexivity.
  - reflexivity.
  - exists self'. split; [by eexists _, _, _|]. exact Ha.
Defined.

(** ** Who claims a signal *)

Lemma issubclass_refl c : issubclass c c = true.
Proof. by destruct c. Qed.

Lemma issubclass_base c p d :
  base c = Some p → issubclass p d = true → issubclass c d = true.
Proof. destruct c; intros [= <-]; destruct d; done. Qed.

(** [issubclass c d] says that [d] is [c] or is reached from [c] through
    base classes. *)
Lemma issubclass_rtc c d : issubclass c d = true ↔ rtc extends c d.
Proof.
  split.
  - intros H.
    assert (∀ a b, base a = Some b → extends a b) as Hs by done.
    destruct c; destruct d; try discriminate H;
      repeat first [ apply rtc_refl | eapply rtc_l; [apply Hs; reflexivity|] ].
  - induction 1 as [c|c p d Hcp _ IH]; [apply issubclass_refl|].
    by eapply issubclass_base.
Qed.

(** [C9] A block left by a failure signal claims it ([__exit__] returns
    true and the [with] statement ends normally) exactly when the class of
    the block is the recover point of the signal or is derived from it, and
    else the signal goes on; so a signal whose recover point is
    [DodonaCommandWithStatus] is claimed by a [Judgement] and by a [Test],
    and by no block of a class outside that branch. *)
Theorem claimed_iff_instance
    (self : instance) (body : code) (stk stk1 : list instance)
    (out : list event) (e : DodonaException) :
  has_outcome (status e) →
  exec body (self :: stk) = (stk1, out, Raised (Dodona e)) →
  ∃ self' handled,
    head stk1 = Some self'
    ∧ (∃ self'' out', __exit__ self' (Some (Dodona e))
                      = Returns (self'', Some (Dodona (strip e)), out', handled))
    ∧ (handled = true ↔ rtc extends (cls self) (recover_at e))
    ∧ (exec (With self body) stk).2
      = (if handled then Normal else Raised (Dodona (strip e)))
    ∧ (recover_at e = DodonaCommandWithStatus →
       (handled = true
        ↔ cls self = DodonaCommandWithStatus ∨ cls self = Judgement ∨ cls self = Test)).
Proof.
  intros Ho Hb.
  pose proof (exec_classes _ _ _ _ _ Hb) as Hc.
  destruct stk1 as [|self' rest]; [discriminate Hc|]. simpl in Hc.
  injection Hc as Hc _.
  exists self', (isinstance self' (recover_at e)).
  split; [reflexivity|]. split; [eexists _, _; by apply exit_dodona|].
  unfold isinstance. rewrite Hc. split; [apply issubclass_rtc|]. split.
  - simpl. rewrite Hb. rewrite leave_dodona by done.
    unfold isinstance. rewrite Hc. reflexivity.
  - intros ->. destruct (cls self); split; intros H;
      try (vm_compute in H; discriminate H);
      try (destruct H as [H|[H|H]]; discriminate H);
      first [ reflexivity | auto ].
Qed.

Lemma claimed_iff_instance_witness :
  result_of (With ex_judgement (With ex_test (With ex_tab
    (RaiseDodona wrong_answer (Some DodonaCommandWithStatus) ∅))))
  = Normal
  ∧ (exec (With ex_test (With ex_tab
       (RaiseDodona wrong_answer (Some DodonaCommandWithStatus) ∅))) [ex_judgement]).2
    = Normal
  ∧ ∃ e', (exec (With ex_tab
             (RaiseDodona wrong_answer (Some DodonaCommandWithStatus) ∅))
             [ex_test; ex_judgement]).2 = Raised (Dodona e').
Proof.
  split; [vm_compute; reflexivity|].
  destruct (claimed_iff_instance ex_test
              (With ex_tab (RaiseDodona wrong_answer (Some DodonaCommandWithStatus) ∅))
              [ex_judgement] [ex_test; ex_judgement]
              (__enter__ ex_tab ++ closing ex_tab)
              (DodonaException_init wrong_answer (Some DodonaCommandWithStatus) ∅))
    as (self' & handled & _ & _ & _ & Hr & Hs).
  - by eexists.
  - vm_compute. reflexivity.
  - split; [|by eexists].
    rewrite Hr. assert (handled = true) as ->; [|reflexivity].
    apply Hs; [reflexivity|]. right. right. reflexivity.
Defined.

(** ** Positional and keyword arguments of [TestCase] and [Message] *)

(** [C10] A [TestCase] or [Message] made with exactly one positional
    argument has it as the [description] or [message] field of its start
    record, whatever keyword arguments come with it; made with no or
    several positional arguments, it has the mapping of the keyword
    arguments instead (the empty mapping when there are none) and the
    positional arguments appear nowhere. The start record has no other
    field than this one and [command]. *)
Theorem single_positional_or_keywords (args : list value) (kwargs : dict) :
  (∀ a, args = [a] →
     __enter__ (TestCase_init args kwargs)
     = [Event AtEnter TestCase
          {[ "command" := VStr "start-testcase"; "description" := a ]}]
     ∧ __enter__ (Message_init args kwargs)
       = [Event AtEnter Message
            {[ "command" := VStr "append-message"; "message" := a ]}])
  ∧ (length args ≠ 1 →
     __enter__ (TestCase_init args kwargs)
     = [Event AtEnter TestCase
          {[ "command" := VStr "start-testcase"; "description" := VDict kwargs ]}]
     ∧ __enter__ (Message_init args kwargs)
       = [Event AtEnter Message
            {[ "command" := VStr "append-message"; "message" := VDict kwargs ]}]).
Proof.
  split.
  - intros a ->. split; reflexivity.
  - intros Hl. destruct args as [|a [|b args]]; [|done|]; split; reflexivity.
Qed.

Lemma single_positional_or_keywords_witness :
  record <$> __enter__ (TestCase_init [] ∅)
  = [ {[ "command" := VStr "start-testcase"; "description" := VDict ∅ ]} ]
  ∧ record <$> __enter__ (Message_init [VStr "a"; VStr "b"] ∅)
    = [ {[ "command" := VStr "append-message"; "message" := VDict ∅ ]} ]
  ∧ record <$> __enter__ (Message_init [VStr "a"] ex_kwargs)
    = [ {[ "command" := VStr "append-message"; "message" := VStr "a" ]} ].
Proof.
  destruct (single_positional_or_keywords [] ∅) as [_ H0].
  destruct (single_positional_or_keywords [VStr "a"; VStr "b"] ∅) as [_ H2].
  destruct (single_positional_or_keywords [VStr "a"] ex_kwargs) as [H1 _].
  destruct H0 as [H0 _]; [simpl; lia|].
  destruct H2 as [_ H2]; [simpl; lia|].
  destruct (H1 (VStr "a") eq_refl) as [_ H1'].
  rewrite H0, H2, H1'. done.
Defined.

(** ** [runtime.diff_images] *)

(** [C8] fails on the code: the sum of a histogram is the number of pixel
    values counted, whatever the values are, so [diff_images] gives 1 for
    an image of one black pixel and itself, and the same 1 for a black and
    a white pixel. *)
Theorem diff_images_counts_pixels :
  diff_images black_pixel black_pixel = Some 1
  ∧ diff_images black_pixel white_pixel = Some 1.
Proof. split; vm_compute; reflexivity. Qed.

Lemma sum_list_zeros {A} (l : list A) : sum_list (map (λ _, 0) l) = 0.
Proof. induction l; simpl; lia. Qed.

Lemma sum_list_map_add {A} (f g : A → nat) (l : list A) :
  sum_list (map (λ v, f v + g v) l) = sum_list (map f l) + sum_list (map g l).
Proof. induction l; simpl; lia. Qed.

Lemma sum_list_indicator (x s n : nat) :
  sum_list (map (λ v, if decide (x = v) then 1 else 0) (seq s n))
  = if decide (s ≤ x < s + n) then 1 else 0.
Proof.
  revert s. induction n as [|n IH]; intros s; simpl.
  - case_decide; [lia | done].
  - rewrite IH. repeat case_decide; lia.
Qed.

(** The bins of one band add up to the number of pixels. *)
Lemma band_total (b : nat) (pxs : list (list nat)) :
  Forall (λ px, ∃ x, px !! b = Some x ∧ x < 256) pxs →
  sum_list (map (λ v, length (filter (λ px, px !! b = Some v) pxs)) (seq 0 256))
  = length pxs.
Proof.
  induction 1 as [|px pxs (x & Hx & Hlt) _ IH].
  - apply sum_list_zeros.
  - rewrite (map_ext _ (λ v, (if decide (x = v) then 1 else 0)
                             + length (filter (λ px, px !! b = Some v) pxs))).
    + rewrite sum_list_map_add, sum_list_indicator, IH.
      rewrite decide_True by lia. done.
    + intros v. rewrite filter_cons, Hx.
      destruct (decide (x = v)) as [->|Hne].
      * by rewrite decide_True.
      * rewrite decide_False; [done | congruence].
Qed.

Lemma sum_list_flat_map_const {A} (f : A → list nat) (n : nat) (l : list A) :
  Forall (λ a, sum_list (f a) = n) l →
  sum_list (flat_map f l) = length l * n.
Proof.
  induction 1 as [|a l Ha _ IH]; [done|].
  simpl. rewrite sum_list_with_app, Ha, IH. done.
Qed.

(** The histogram of a well-formed image adds up to its number of pixel
    values. *)
Lemma histogram_total (im : Image) :
  well_formed im →
  sum_list (histogram im) = bands im * length (pixels im).
Proof.
  intros Hwf. unfold histogram.
  rewrite (sum_list_flat_map_const _ (length (pixels im))).
  - by rewrite length_seq.
  - apply Forall_forall. intros b Hb. apply elem_of_seq in Hb.
    apply band_total. eapply Forall_impl; [exact Hwf|].
    intros px [Hl Hv]. simpl in *.
    destruct (lookup_lt_is_Some_2 px b) as [x Hx]; [lia|].
    exists x. split; [done|].
    eapply Forall_lookup_1 in Hv; eauto.
Qed.

(** The difference of an image with itself has the same pixels, all zero. *)
Lemma difference_self (im : Image) :
  ImageChops_difference im im
  = Some {| bands := bands im; rows := map (map (map (λ _, 0))) (rows im) |}.
Proof.
  unfold ImageChops_difference. rewrite decide_True by done. do 2 f_equal.
  rewrite zip_with_diag. apply map_ext. intros row.
  rewrite zip_with_diag. apply map_ext. intros px.
  rewrite zip_with_diag. apply map_ext. intros v. lia.
Qed.

(** On every well-formed image, [diff_images] of the image and itself is
    the number of its pixel values: zero only for an image without
    pixels. *)
Lemma diff_images_self (im : Image) :
  well_formed im →
  diff_images im im = Some (bands im * length (pixels im)).
Proof.
  intros Hwf. unfold diff_images. rewrite difference_self.
  rewrite histogram_total.
  - unfold pixels. simpl. f_equal. f_equal.
    rewrite !length_concat. f_equal. rewrite <- !list_fmap_compose.
    apply list_fmap_ext. intros _ row _. simpl. by rewrite length_map.
  - unfold well_formed, pixels in *. simpl.
    induction (rows im) as [|row rs IH]; [constructor|].
    simpl in *. apply Forall_app in Hwf as [Hrow Hrs].
    apply Forall_app. split; [|by apply IH].
    clear IH Hrs. induction Hrow as [|px row [Hl Hv] _ IH]; [constructor|].
    simpl. constructor; [|exact IH]. split.
    + by rewrite length_map.
    + apply Forall_fmap. eapply Forall_impl; [exact Hv|]. simpl. lia.
Qed.
(** ** Exceptions that are not failure signals *)

Lemma propagate_other what frames :
  propagate (OtherException what) frames
  = (flat_map closing frames, Raised (OtherException what)).
Proof.
  induction frames as [|self frames IH]; [done|].
  cbn [propagate]. rewrite leave_other, IH. reflexivity.
Qed.

(** [X1] An exception that is not a [DodonaException], raised at any place
    [k]: no block swallows it; every block around the place writes its
    close record with the close fields as the body left them, innermost
    first, and the exception leaves the outermost block unchanged. *)
Theorem other_exception_never_swallowed
    (k : ctx) (what : string) (stk stk_h : list instance) (out_h : list event) :
  reach k stk = Some (stk_h, out_h) →
  exec (plug k (RaiseOther what)) stk
  = (drop (depth k) stk_h,
     out_h ++ flat_map closing (take (depth k) stk_h),
     Raised (OtherException what)).
Proof.
  intros Hr.
  assert (exec (RaiseOther what) stk_h = (stk_h, [], Raised (OtherException what)))
    as Hraise by reflexivity.
  pose proof (exec_plug_raised k _ _ _ _ _ _ _ (OtherException what) Hr Hraise) as H.
  rewrite propagate_other in H. apply H. reflexivity.
Qed.

Lemma other_exception_never_swallowed_witness :
  exec (With ex_judgement (plug ex_site (RaiseOther "ZeroDivisionError"))) []
  = ([],
     __enter__ ex_judgement
       ++ (__enter__ ex_tab ++ __enter__ ex_context ++ __enter__ ex_testcase
             ++ __enter__ ex_test)
       ++ [Event AtExit Test
             (command_record "close-test" {[ "generated" := VStr "<svg/>" ]});
           Event AtExit TestCase (command_record "close-testcase" ∅);
           Event AtExit Context (command_record "close-context" ∅);
           Event AtExit Tab (command_record "close-tab" ∅);
           Event AtExit Judgement (command_record "close-judgement" ∅)],
     Raised (OtherException "ZeroDivisionError")).
Proof.
  etrans.
  - apply (other_exception_never_swallowed (InWith ex_judgement ex_site)
             "ZeroDivisionError" []
             [set_close ex_test "generated" (VStr "<svg/>");
              ex_testcase; ex_context; ex_tab; ex_judgement]
             (__enter__ ex_judgement ++ __enter__ ex_tab ++ __enter__ ex_context
                ++ __enter__ ex_testcase ++ __enter__ ex_test)).
    vm_compute. reflexivity.
  - vm_compute. reflexivity.
Defined.

(** ** A status object without ["enum"] *)

(** The [KeyError] of [exception.status["enum"]]. *)
Lemma exit_without_enum self e :
  with_accepted (cls self) = true →
  status e !! "enum" = None →
  __exit__ self (Some (Dodona e)) = Raises (OtherException "KeyError").
Proof.
  intros Ha Hv.
  unfold __exit__, handle_dodona_exception,
    DodonaCommandWithStatus_handle_dodona_exception,
    DodonaCommandWithAccepted_handle_dodona_exception.
  destruct self as [c sa ca]; destruct c; simpl in *;
    try discriminate Ha; by rewrite Hv.
Qed.

(** [X3] A block whose class has an [accepted] field, left by a failure
    signal whose status object has no ["enum"] entry: the [with] statement
    writes nothing after the records of its body, neither the note of the
    signal nor the close record of the block, and ends by a [KeyError]. *)
Theorem enum_missing_leaves_block_open
    (mgr : instance) (body : code) (stk stk1 : list instance)
    (out : list event) (e : DodonaException) :
  with_accepted (cls mgr) = true →
  status e !! "enum" = None →
  exec body (mgr :: stk) = (stk1, out, Raised (Dodona e)) →
  exec (With mgr body) stk
  = (tail stk1, __enter__ mgr ++ out, Raised (OtherException "KeyError")).
Proof.
  intros Ha Hv Hb.
  pose proof (exec_classes _ _ _ _ _ Hb) as Hc.
  destruct stk1 as [|self rest]; [discriminate Hc|]. injection Hc as Hc _.
  simpl. rewrite Hb.
  assert (__exit__ self (Some (Dodona e)) = Raises (OtherException "KeyError")) as Hx.
  { apply exit_without_enum; [by rewrite Hc | done]. }
  unfold leave. rewrite Hx. by rewrite app_nil_r.
Qed.

Lemma enum_missing_leaves_block_open_witness :
  exec (With ex_judgement (With ex_context (RaiseDodona ∅ None ex_kwargs))) []
  = ([],
     [Event AtEnter Judgement (command_record "start-judgement" ∅);
      Event AtEnter Context (command_record "start-context" ∅);
      Event AtExit Judgement (command_record "close-judgement" ∅)],
     Raised (OtherException "KeyError")).
Proof.
  assert (exec (With ex_context (RaiseDodona ∅ None ex_kwargs)) [ex_judgement]
          = ([ex_judgement], __enter__ ex_context, Raised (OtherException "KeyError")))
    as H.
  { rewrite (enum_missing_leaves_block_open ex_context _ [ex_judgement]
               [ex_context; ex_judgement] []
               (DodonaException_init ∅ None ex_kwargs)); reflexivity. }
  change (exec (With ex_judgement (With ex_context (RaiseDodona ∅ None ex_kwargs))) [])
    with (let '(stk, out1, r) :=
            exec (With ex_context (RaiseDodona ∅ None ex_kwargs)) [ex_judgement] in
          match stk with
          | self :: stk =>
              let '(out2, r) := leave self r in
              (stk, __enter__ ex_judgement ++ out1 ++ out2, r)
          | [] => ([], __enter__ ex_judgement ++ out1, r)
          end).
  rewrite H. vm_compute. reflexivity.
Defined.

(** ** Signals that no block claims *)

(** [X4] A failure signal raised at a place [k] none of whose blocks is an
    instance of its recover point (a signal without [recover_at] outside
    every [Judgement], say): every block of [k] writes its close record
    after the close-field updates of its handler, the innermost one after
    the note of the signal, no [escalate-status] record is written, and the
    signal leaves the outermost block, without its note once it has left a
    block. *)
Theorem unclaimed_signal_leaves_every_block
    (k : ctx) (st : dict) (ra : option Class) (kw : dict)
    (stk stk_h : list instance) (out_h : list event) :
  has_outcome st →
  reach k stk = Some (stk_h, out_h) →
  Forall (λ mgr, isinstance mgr (recover_at (DodonaException_init st ra kw)) = false)
    (managers k) →
  exec (plug k (RaiseDodona st ra kw)) stk
  = (drop (depth k) stk_h,
     out_h
       ++ match managers k with
          | [] => []
          | _ => note_out (DodonaException_init st ra kw)
          end
       ++ closings (DodonaException_init st ra kw) (take (depth k) stk_h),
     Raised (Dodona match managers k with
                    | [] => DodonaException_init st ra kw
                    | _ => strip (DodonaException_init st ra kw)
                    end)).
Proof.
  intros Ho Hr Hk.
  set (e := DodonaException_init st ra kw) in *.
  pose proof (frames_pass _ _ _ _ _ Hr Hk) as Hpass.
  pose proof (propagate_pass _ e Ho Hpass) as Hp.
  assert (exec (RaiseDodona st ra kw) stk_h = (stk_h, [], Raised (Dodona e)))
    as Hraise by reflexivity.
  pose proof (exec_plug_raised k _ _ _ _ _ _ _ _ Hr Hraise (f_equal snd Hp)) as H.
  rewrite Hp in H. simpl in H. rewrite H.
  pose proof (frames_classes _ _ _ _ Hr) as Hc.
  destruct (managers k) as [|mgr mgrs], (take (depth k) stk_h) as [|f fs];
    try reflexivity; apply (f_equal length) in Hc;
    simpl in Hc; rewrite ?length_app, ?length_rev, ?length_fmap in Hc;
    simpl in Hc; lia.
Qed.

Lemma unclaimed_signal_leaves_every_block_witness :
  exec (With ex_tab (With ex_context (RaiseDodona wrong_answer None ex_kwargs))) []
  = ([],
     [Event AtEnter Tab (command_record "start-tab" {[ "title" := VStr "Comparing PNGs" ]});
      Event AtEnter Context (command_record "start-context" ∅);
      note_event ex_kwargs;
      Event AtExit Context (command_record "close-context" {[ "accepted" := VBool false ]});
      Event AtExit Tab (command_record "close-tab" ∅)],
     Raised (Dodona (strip ex_signal))).
Proof.
  etrans.
  - apply (unclaimed_signal_leaves_every_block
             (InWith ex_tab (InWith ex_context Hole)) wrong_answer None ex_kwargs []
             [ex_context; ex_tab] (__enter__ ex_tab ++ __enter__ ex_context)).
    + by eexists.
    + vm_compute. reflexivity.
    + repeat constructor.
  - vm_compute. reflexivity.
Defined.

(** ** The fields of the start and close records *)

Lemma start_msg_eq self :
  start_msg self = command_record (start_command (cls self)) (start_args self).
Proof. destruct self as [[] sa ca]; reflexivity. Qed.

Lemma command_record_other c d k :
  k ≠ "command" → command_record c d !! k = d !! k.
Proof.
  intros Hk. unfold command_record.
  destruct (d !! k) as [v|] eqn:E.
  - by apply lookup_union_Some_l.
  - rewrite lookup_union_r by done. by apply lookup_singleton_ne.
Qed.

(** [X5] The start record of a block has the start fields of the block
    under their names; a start field called ["command"] takes the place of
    the command of the class ([start-<name>], [append-message] for a
    [Message], [annotate-code] for an [Annotation]), which is there only if
    no start field has that name. *)
Theorem start_record_fields (self : instance) :
  (∀ k v, start_args self !! k = Some v → start_msg self !! k = Some v)
  ∧ (start_args self !! "command" = None →
     start_msg self !! "command" = Some (VStr (start_command (cls self))))
  ∧ (∀ k, k ≠ "command" → start_msg self !! k = start_args self !! k).
Proof.
  rewrite start_msg_eq. split; [|split].
  - intros k v. apply command_record_lookup.
  - apply command_record_fresh.
  - intros k. apply command_record_other.
Qed.

(** [X6] The close record of a block of a class other than [Message] and
    [Annotation] has the close fields of the block under their names; a
    close field called ["command"] (assigned through the handle) takes the
    place of [close-<name>], which is there only if no close field has that
    name. *)
Theorem close_record_fields (self : instance) (d : dict) :
  close_msg self = Some d →
  (∀ k v, close_args self !! k = Some v → d !! k = Some v)
  ∧ (close_args self !! "command" = None →
     d !! "command" = Some (VStr ("close-" ++ name self)))
  ∧ (∀ k, k ≠ "command" → d !! k = close_args self !! k).
Proof.
  intros H.
  assert (d = command_record ("close-" ++ name self) (close_args self)) as ->.
  { unfold close_msg in H.
    destruct (resolve defines_close_msg (cls self)) as [[]|];
      by inversion H. }
  split; [|split].
  - intros k v. apply command_record_lookup.
  - apply command_record_fresh.
  - intros k. apply command_record_other.
Qed.

Lemma close_record_fields_witness :
  ∃ d,
    close_msg (set_close ex_tab "command" (VStr "start-tab")) = Some d
    ∧ d !! "command" = Some (VStr "start-tab").
Proof.
  exists (command_record "close-tab" {[ "command" := VStr "start-tab" ]}).
  split; [reflexivity|].
  destruct (close_record_fields (set_close ex_tab "command" (VStr "start-tab"))
              (command_record "close-tab" {[ "command" := VStr "start-tab" ]}))
    as (H & _ & _); [reflexivity|].
  apply H. reflexivity.
Defined.

Lemma start_record_fields_witness :
  start_msg (Tab_init (VStr "t") {[ "command" := VStr "close-judgement" ]}) !! "command"
  = Some (VStr "close-judgement")
  ∧ start_msg ex_tab !! "command" = Some (VStr "start-tab").
Proof.
  destruct (start_record_fields
              (Tab_init (VStr "t") {[ "command" := VStr "close-judgement" ]}))
    as (H1 & _ & _).
  destruct (start_record_fields ex_tab) as (_ & H2 & _).
  split; [apply H1; reflexivity | apply H2; reflexivity].
Defined.

(** ** Assignments through the handle *)

(** [X9] A field assigned through the handle of the innermost block, as the
    last statement of a body that ends normally, is in the close record of
    that block with the assigned value (a later assignment wins over an
    earlier one to the same field), and the [with] statement ends
    normally. *)
Theorem assigned_field_in_close_record
    (mgr : instance) (pre : code) (k : string) (v : value)
    (stk stk1 : list instance) (out : list event) :
  has_close (cls mgr) = true →
  exec pre (mgr :: stk) = (stk1, out, Normal) →
  ∃ d,
    exec (With mgr (Seq pre (SetAttr 0 k v))) stk
    = (tail stk1, __enter__ mgr ++ out ++ [Event AtExit (cls mgr) d], Normal)
    ∧ d !! k = Some v.
Proof.
  intros Hc Hp.
  pose proof (exec_classes _ _ _ _ _ Hp) as Hcls.
  destruct stk1 as [|self rest]; [discriminate Hcls|]. injection Hcls as Hcls _.
  exists (command_record ("close-" ++ name (set_close self k v))
            (close_args (set_close self k v))).
  split.
  - cbn [exec]. rewrite Hp. cbn [lookup list_lookup insert list_insert].
    rewrite leave_normal, closing_eq. cbn [cls set_close tail].
    rewrite Hcls, Hc. by rewrite app_nil_r.
  - apply command_record_lookup. simpl. apply lookup_insert_eq.
Qed.

Lemma assigned_field_in_close_record_witness :
  ∃ d,
    last (exec (With ex_test
                  (Seq (SetAttr 0 "generated" (VStr "old"))
                       (SetAttr 0 "generated" (VStr "new")))) []).1.2
    = Some (Event AtExit Test d)
    ∧ d !! "generated" = Some (VStr "new").
Proof.
  destruct (assigned_field_in_close_record ex_test
              (SetAttr 0 "generated" (VStr "old")) "generated" (VStr "new") []
              [set_close ex_test "generated" (VStr "old")] [])
    as (d & He & Hd); [reflexivity|reflexivity|].
  exists d. rewrite He. cbn [fst snd]. split; [|exact Hd].
  rewrite app_nil_l. apply last_snoc.
Defined.

(** ** Outcome descriptors *)

Lemma py_eq_str_true v s : py_eq_str v s = true ↔ v = VStr s.
Proof.
  destruct v; simpl; try (split; [discriminate|intros [=]]).
  rewrite String.eqb_eq. split; [by intros ->|by intros [= ->]].
Qed.

(** [X10] The [accepted] field a handler derives from a status object is
    true exactly when the ["enum"] entry is the string ["correct"] or the
    string ["correct answer"]: any other string, in whatever case, and any
    value that is not a string give false. *)
Theorem accepted_exactly_for_correct_strings
    (self : instance) (e : DodonaException) (v : value) :
  with_accepted (cls self) = true →
  status e !! "enum" = Some v →
  ∃ self' e' out handled accepted,
    handle_dodona_exception self e = Returns (self', e', out, handled)
    ∧ close_args self' !! "accepted" = Some (VBool accepted)
    ∧ (accepted = true ↔ v = VStr "correct" ∨ v = VStr "correct answer").
Proof.
  intros Ha Hv.
  eexists _, _, _, _, _. split; [|split].
  - apply handle_dodona_exception_returns. by eexists.
  - by apply bookkeep_accepted.
  - unfold accepted_of. rewrite Hv. rewrite orb_true_iff, !py_eq_str_true.
    reflexivity.
Qed.

Lemma accepted_exactly_for_correct_strings_witness :
  ∃ self' e' out handled,
    handle_dodona_exception ex_context
      (DodonaException_init {[ "enum" := VStr "CORRECT" ]} None ∅)
    = Returns (self', e', out, handled)
    ∧ close_args self' !! "accepted" = Some (VBool false).
Proof.
  destruct (accepted_exactly_for_correct_strings ex_context
              (DodonaException_init {[ "enum" := VStr "CORRECT" ]} None ∅)
              (VStr "CORRECT"))
    as (self' & e' & out & handled & acc & Hh & Ha & Hiff); [reflexivity..|].
  exists self', e', out, handled. split; [exact Hh|].
  rewrite Ha. destruct acc; [|reflexivity].
  destruct Hiff as [Hiff _]. destruct (Hiff eq_refl) as [[=]|[=]].
Defined.

(** ** Naming [Judgement] as recover point *)

Lemma bookkeep_status_only self e1 e2 :
  status e1 = status e2 → bookkeep self e1 = bookkeep self e2.
Proof. unfold bookkeep. by intros ->. Qed.

Lemma closings_status_only e1 e2 frames :
  status e1 = status e2 → closings e1 frames = closings e2 frames.
Proof.
  intros H. unfold closings. induction frames as [|self frames IH]; [done|].
  simpl. by rewrite IH, (bookkeep_status_only self e1 e2 H).
Qed.

(** [X11] A failure signal raised with [recover_at=Judgement] is not the
    signal raised without [recover_at]: inside a [Judgement] block both are
    swallowed by it and leave the same records and the same close fields
    behind, except that the [Judgement] writes one [escalate-status] record
    just before its close record when it was named. *)
Theorem naming_Judgement_adds_escalation
    (root : instance) (k : ctx) (st kw : dict)
    (stk stk_h : list instance) (out_h : list event) :
  cls root = Judgement →
  Forall (λ mgr, cls mgr ≠ Judgement) (managers k) →
  has_outcome st →
  reach k (root :: stk) = Some (stk_h, out_h) →
  ∃ before d,
    exec (With root (plug k (RaiseDodona st None kw))) stk
    = (drop (S (depth k)) stk_h, before ++ [Event AtExit Judgement d], Normal)
    ∧ exec (With root (plug k (RaiseDodona st (Some Judgement) kw))) stk
      = (drop (S (depth k)) stk_h,
         before
           ++ [Event AtEscalate Judgement
                 (<["command" := VStr "escalate-status"]> {[ "status" := VDict st ]});
               Event AtExit Judgement d],
         Normal).
Proof.
  intros Hroot Hk Ho Hr.
  assert (Forall (λ mgr, isinstance mgr Judgement = false) (managers k)) as Hk'.
  { eapply Forall_impl; [exact Hk|]. intros mgr Hm. simpl in Hm.
    rewrite isinstance_Judgement. by apply bool_decide_eq_false. }
  assert (isinstance root Judgement = true) as Hm.
  { rewrite isinstance_Judgement. by apply bool_decide_eq_true. }
  destruct (exec_claimed root k st None kw stk stk_h out_h Ho Hr Hk' Hm)
    as (m1 & Hl1 & Hc1 & _ & H1).
  destruct (exec_claimed root k st (Some Judgement) kw stk stk_h out_h Ho Hr Hk' Hm)
    as (m2 & Hl2 & Hc2 & _ & H2).
  assert (m2 = m1) as -> by congruence.
  set (e1 := DodonaException_init st None kw) in *.
  set (e2 := DodonaException_init st (Some Judgement) kw) in *.
  exists (__enter__ root ++ out_h ++ note_out e1 ++ closings e1 (take (depth k) stk_h)),
    (command_record "close-judgement" (close_args (bookkeep m1 e1))).
  assert (closing (bookkeep m1 e1)
          = [Event AtExit Judgement
               (command_record "close-judgement" (close_args (bookkeep m1 e1)))]) as Hcl.
  { rewrite closing_eq. unfold name. rewrite !cls_bookkeep, Hc1, Hroot. reflexivity. }
  split.
  - rewrite H1, Hcl. unfold escalation. simpl. rewrite andb_false_r. simpl.
    by rewrite <- !app_assoc.
  - rewrite H2. rewrite (closings_status_only e2 e1) by reflexivity.
    rewrite (bookkeep_status_only m1 e2 e1) by reflexivity. rewrite Hcl.
    unfold escalation, escalate_record.
    change (recover_at e2) with Judgement. change (escalate_status e2) with true.
    change (status e2) with st. rewrite Hm, Hroot. cbn [andb].
    by rewrite <- !app_assoc.
Qed.

Lemma naming_Judgement_adds_escalation_witness :
  length (exec (With ex_judgement
                  (plug ex_site (RaiseDodona wrong_answer (Some Judgement) ex_kwargs)))
            []).1.2
  = S (length (exec (With ex_judgement
                       (plug ex_site (RaiseDodona wrong_answer None ex_kwargs)))
                 []).1.2).
Proof.
  destruct (naming_Judgement_adds_escalation ex_judgement ex_site wrong_answer
              ex_kwargs []
              [set_close ex_test "generated" (VStr "<svg/>");
               ex_testcase; ex_context; ex_tab; ex_judgement]
              (__enter__ ex_tab ++ __enter__ ex_context ++ __enter__ ex_testcase
                 ++ __enter__ ex_test))
    as (before & d & H1 & H2).
  - reflexivity.
  - repeat constructor; discriminate.
  - by eexists.
  - vm_compute. reflexivity.
  - rewrite H1, H2. cbn [fst snd]. rewrite !length_app. simpl. lia.
Defined.

(** ** The patches of [runtime_patch.py] *)

Section patches.
Import runtime_patch.

Lemma getattr_setattr_eq w id a v :
  getattr (setattr w id a v) (PyObj id) a = Returns v.
Proof.
  unfold getattr, setattr. simpl. rewrite lookup_insert_eq. simpl.
  by rewrite lookup_insert_eq.
Qed.

Lemma getattr_setattr_ne w id a v id' a' :
  (id', a') ≠ (id, a) →
  getattr (setattr w id a v) (PyObj id') a' = getattr w (PyObj id') a'.
Proof.
  intros Hne. unfold getattr, setattr. simpl.
  destruct (decide (id' = id)) as [->|Hid].
  - rewrite lookup_insert_eq. simpl.
    rewrite lookup_insert_ne by congruence.
    destruct (attrs w !! id); simpl; [done|]. by rewrite lookup_empty.
  - by rewrite lookup_insert_ne.
Qed.

(** A [with] statement on a new patch whose generator reaches its
    [yield]. *)
Lemma with_new_patch c body w w1 y l :
  until_yield c w = Returns (w1, y, l) →
  with_ (__init__ c) body w
  = ({| class := c; generator := None |},
     finally l (body y w1).1, (body y w1).2).
Proof.
  intros H. unfold with_, __enter__, __init__, next. simpl. rewrite H.
  destruct (body y w1) as [w2 [|x]]; reflexivity.
Qed.

(** [X12] [with TimePatch(): body], when [sys.modules] has the module
    [time] and that module has [sleep]: the body runs with [time.sleep]
    being a new function that does nothing; after the statement
    [time.sleep] is the function it was before, however the body ended and
    whatever the body assigned to it; the attributes of every other object
    and the other attributes of the module are as the body left them; and
    the statement ends as the body did. *)
Theorem TimePatch_restores_sleep
    (body : pyval → World → World * result) (w : World) (m : nat) (old_sleep : pyval) :
  sys_modules w !! "time" = Some (PyObj m) →
  getattr w (PyObj m) "sleep" = Returns old_sleep →
  ∃ w1 w2 r w3 self,
    getattr w1 (PyObj m) "sleep" = Returns (PyNoop (made w))
    ∧ body PyNone w1 = (w2, r)
    ∧ with_ (__init__ TimePatch) body w = (self, w3, r)
    ∧ getattr w3 (PyObj m) "sleep" = Returns old_sleep
    ∧ (∀ id a, (id, a) ≠ (m, "sleep") →
         getattr w3 (PyObj id) a = getattr w2 (PyObj id) a)
    ∧ generator self = None.
Proof.
  intros Hm Hs.
  assert (until_yield TimePatch w
          = Returns (set_made (setattr w m "sleep" (PyNoop (made w))) (S (made w)),
                     PyNone, TimeLocals m old_sleep)) as Hy.
  { unfold until_yield, getitem. rewrite Hm, Hs. reflexivity. }
  set (w1 := set_made (setattr w m "sleep" (PyNoop (made w))) (S (made w))) in *.
  exists w1, (body PyNone w1).1, (body PyNone w1).2,
    (finally (TimeLocals m old_sleep) (body PyNone w1).1),
    {| class := TimePatch; generator := None |}.
  split; [|split; [|split; [|split; [|split]]]].
  - apply (getattr_setattr_eq w m "sleep").
  - by destruct (body PyNone w1).
  - by apply with_new_patch.
  - apply getattr_setattr_eq.
  - intros id a Hne. by apply getattr_setattr_ne.
  - reflexivity.
Qed.

Lemma TimePatch_restores_sleep_witness :
  ∃ w3 self,
    with_ (__init__ TimePatch)
      (λ _ w, (setattr w 10 "sleep" (PyObj 99), Raised (OtherException "RuntimeError")))
      ex_world
    = (self, w3, Raised (OtherException "RuntimeError"))
    ∧ getattr w3 (PyObj 10) "sleep" = Returns (PyObj 20).
Proof.
  destruct (TimePatch_restores_sleep
              (λ _ w, (setattr w 10 "sleep" (PyObj 99),
                       Raised (OtherException "RuntimeError")))
              ex_world 10 (PyObj 20))
    as (w1 & w2 & r & w3 & self & _ & Hb & Hw & Hs & _); [reflexivity..|].
  exists w3, self. injection Hb as _ <-. split; [exact Hw | exact Hs].
Defined.

(** [X13] [with RuntimePatch(name): body], when [sys.modules] has ["os"]
    and ["io"] and the builtins have ["open"], ["eval"] and ["exec"]: the
    body runs with these five being [None] and [sys.argv] being [[name]];
    after the statement the five and [sys.argv] are what they were before,
    however the body ended and whatever it assigned to them; every other
    module and builtin, the attributes and the streams are as the body left
    them; and the statement ends as the body did. *)
Theorem RuntimePatch_hides_and_restores
    (name : string) (body : pyval → World → World * result) (w : World)
    (old_os old_io old_open old_eval old_exec : pyval) :
  sys_modules w !! "os" = Some old_os →
  sys_modules w !! "io" = Some old_io →
  builtins w !! "open" = Some old_open →
  builtins w !! "eval" = Some old_eval →
  builtins w !! "exec" = Some old_exec →
  ∃ w1 w2 r w3 self,
    (sys_modules w1 !! "os" = Some PyNone ∧ sys_modules w1 !! "io" = Some PyNone
     ∧ builtins w1 !! "open" = Some PyNone ∧ builtins w1 !! "eval" = Some PyNone
     ∧ builtins w1 !! "exec" = Some PyNone ∧ sys_argv w1 = PyList [PyStr name])
    ∧ body PyNone w1 = (w2, r)
    ∧ with_ (__init__ (RuntimePatch name)) body w = (self, w3, r)
    ∧ (sys_modules w3 !! "os" = Some old_os ∧ sys_modules w3 !! "io" = Some old_io
       ∧ builtins w3 !! "open" = Some old_open ∧ builtins w3 !! "eval" = Some old_eval
       ∧ builtins w3 !! "exec" = Some old_exec ∧ sys_argv w3 = sys_argv w)
    ∧ (∀ k, k ≠ "os" → k ≠ "io" → sys_modules w3 !! k = sys_modules w2 !! k)
    ∧ (∀ k, k ≠ "open" → k ≠ "eval" → k ≠ "exec" → builtins w3 !! k = builtins w2 !! k)
    ∧ attrs w3 = attrs w2
    ∧ (sys_stdin w3, sys_stdout w3, sys_stderr w3) = (sys_stdin w2, sys_stdout w2, sys_stderr w2)
    ∧ generator self = None.
Proof.
  intros Hos Hio Hopen Heval Hexec.
  set (w1 := set_runtime w PyNone PyNone PyNone PyNone PyNone (PyList [PyStr name])).
  assert (until_yield (RuntimePatch name) w
          = Returns (w1, PyNone,
                     RuntimeLocals old_os old_io old_open old_eval old_exec (sys_argv w)))
    as Hy.
  { unfold until_yield, getitem. by rewrite Hos, Hio, Hopen, Heval, Hexec. }
  exists w1, (body PyNone w1).1, (body PyNone w1).2,
    (finally (RuntimeLocals old_os old_io old_open old_eval old_exec (sys_argv w))
       (body PyNone w1).1),
    {| class := RuntimePatch name; generator := None |}.
  split; [|split; [|split; [|split; [|split; [|split; [|split; [|split]]]]]]].
  - unfold w1. simpl. by simplify_map_eq.
  - by destruct (body PyNone w1).
  - by apply with_new_patch.
  - simpl. by simplify_map_eq.
  - intros k H1 H2. simpl. by simplify_map_eq.
  - intros k H1 H2 H3. simpl. by simplify_map_eq.
  - reflexivity.
  - reflexivity.
  - reflexivity.
Qed.

Lemma RuntimePatch_hides_and_restores_witness :
  ∃ w3 self,
    with_ (__init__ (RuntimePatch "solution.py"))
      (λ _ w, (set_runtime w (PyObj 1) (PyObj 2) (PyObj 3) (PyObj 4) (PyObj 5) PyNone,
               Normal))
      ex_world
    = (self, w3, Normal)
    ∧ sys_modules w3 !! "os" = Some (PyObj 11)
    ∧ builtins w3 !! "open" = Some (PyObj 30)
    ∧ sys_argv w3 = PyList [PyStr "turtle_judge.py"].
Proof.
  destruct (RuntimePatch_hides_and_restores "solution.py"
              (λ _ w, (set_runtime w (PyObj 1) (PyObj 2) (PyObj 3) (PyObj 4) (PyObj 5)
                         PyNone, Normal))
              ex_world (PyObj 11) (PyObj 12) (PyObj 30) (PyObj 31) (PyObj 32))
    as (w1 & w2 & r & w3 & self & _ & Hb & Hw & (H1 & _ & H3 & _ & _ & H6) & _);
    [reflexivity..|].
  exists w3, self. injection Hb as _ <-. by repeat split.
Defined.

(** [X14] [with RuntimePatch(name): pass] and [with Patch(): pass] leave
    the interpreter exactly as it was, when [sys.modules] has ["os"] and
    ["io"] and the builtins have ["open"], ["eval"] and ["exec"]. *)
Theorem RuntimePatch_round_trip (name : string) (w : World) :
  is_Some (sys_modules w !! "os") →
  is_Some (sys_modules w !! "io") →
  is_Some (builtins w !! "open") →
  is_Some (builtins w !! "eval") →
  is_Some (builtins w !! "exec") →
  with_ (__init__ (RuntimePatch name)) (λ _ w, (w, Normal)) w
  = ({| class := RuntimePatch name; generator := None |}, w, Normal)
  ∧ with_ (__init__ Patch) (λ _ w, (w, Normal)) w
    = ({| class := Patch; generator := None |}, w, Normal).
Proof.
  intros [os Hos] [io Hio] [open Hopen] [eval Heval] [exec_ Hexec].
  split; [|reflexivity].
  erewrite with_new_patch.
  2:{ unfold until_yield, getitem. by rewrite Hos, Hio, Hopen, Heval, Hexec. }
  f_equal. f_equal. destruct w as [mods at_ i o e di do_ de argv bi n].
  unfold finally, set_runtime. simpl in *. f_equal.
  - apply map_eq. intros k.
    destruct (decide (k = "io")) as [->|?]; [by simplify_map_eq|].
    destruct (decide (k = "os")) as [->|?]; by simplify_map_eq.
  - apply map_eq. intros k.
    destruct (decide (k = "exec")) as [->|?]; [by simplify_map_eq|].
    destruct (decide (k = "eval")) as [->|?]; [by simplify_map_eq|].
    destruct (decide (k = "open")) as [->|?]; by simplify_map_eq.
Qed.

Lemma RuntimePatch_round_trip_witness :
  (with_ (__init__ (RuntimePatch "solution.py")) (λ _ w, (w, Normal)) ex_world).1.2
  = ex_world.
Proof.
  destruct (RuntimePatch_round_trip "solution.py" ex_world) as [H _];
    [by eexists..|].
  by rewrite H.
Defined.

(** [X15] When [__enter__] of a new patch raises (a [KeyError] for a
    missing module or builtin, an [AttributeError] for a [time] module
    without [sleep]), nothing has been patched: the interpreter is as it
    was, the body does not run, and the [with] statement ends by that
    exception. [RuntimePatch] patches all of its six names or none. *)
Theorem failed_enter_patches_nothing
    (c : PatchClass) (body : pyval → World → World * result) (w : World) (x : exn) :
  (__enter__ (__init__ c) w).2 = Raises x →
  with_ (__init__ c) body w
  = ({| class := c; generator := Some Finished |}, w, Raised x)
  ∧ (x = OtherException "KeyError" ∨ x = OtherException "AttributeError").
Proof.
  unfold with_, __enter__, __init__, next. simpl.
  destruct c as [| | |name]; simpl; try discriminate.
  - unfold getitem, getattr.
    destruct (sys_modules w !! "time") as [[| id | | | | |]|]; simpl;
      try (intros [= <-]; split; [reflexivity | auto]).
    destruct (attrs w !! id ≫= (.!! "sleep")); simpl; [discriminate|].
    intros [= <-]. split; [reflexivity | auto].
  - unfold getitem.
    destruct (sys_modules w !! "os"); simpl;
      [|intros [= <-]; split; [reflexivity | auto]].
    destruct (sys_modules w !! "io"); simpl;
      [|intros [= <-]; split; [reflexivity | auto]].
    destruct (builtins w !! "open"); simpl;
      [|intros [= <-]; split; [reflexivity | auto]].
    destruct (builtins w !! "eval"); simpl;
      [|intros [= <-]; split; [reflexivity | auto]].
    destruct (builtins w !! "exec"); simpl;
      [discriminate|intros [= <-]; split; [reflexivity | auto]].
Qed.

Lemma failed_enter_patches_nothing_witness :
  sys_modules ex_world_without_exec !! "os" = Some (PyObj 11)
  ∧ builtins ex_world_without_exec !! "exec" = None
  ∧ with_ (__init__ (RuntimePatch "solution.py")) (λ _ w, (w, Normal))
      ex_world_without_exec
    = ({| class := RuntimePatch "solution.py"; generator := Some Finished |},
       ex_world_without_exec, Raised (OtherException "KeyError")).
Proof.
  split; [reflexivity|]. split; [reflexivity|].
  apply failed_enter_patches_nothing. reflexivity.
Defined.

(** [X16] [with InOutPatch() as (i, o, e): body] never fails to enter; the
    body gets three new streams, different from each other, which are
    [sys.stdin], [sys.stdout] and [sys.stderr] while it runs, [sys.__stdin__],
    [sys.__stdout__] and [sys.__stderr__] being untouched; after the
    statement these three are what they were before, however the body
    ended, while [sys.__stdin__], [sys.__stdout__] and [sys.__stderr__]
    are not what they were but the three streams the body got. *)
Theorem InOutPatch_streams (body : pyval → World → World * result) (w : World) :
  ∃ i o e w1 w2 r w3 self,
    (i ≠ o ∧ i ≠ e ∧ o ≠ e)
    ∧ (sys_stdin w1, sys_stdout w1, sys_stderr w1) = (i, o, e)
    ∧ (sys___stdin__ w1, sys___stdout__ w1, sys___stderr__ w1)
      = (sys___stdin__ w, sys___stdout__ w, sys___stderr__ w)
    ∧ body (PyTuple [i; o; e]) w1 = (w2, r)
    ∧ with_ (__init__ InOutPatch) body w = (self, w3, r)
    ∧ (sys_stdin w3, sys_stdout w3, sys_stderr w3)
      = (sys_stdin w, sys_stdout w, sys_stderr w)
    ∧ (sys___stdin__ w3, sys___stdout__ w3, sys___stderr__ w3) = (i, o, e)
    ∧ generator self = None.
Proof.
  set (i := PyStringIO (made w)). set (o := PyStringIO (S (made w))).
  set (e := PyStringIO (S (S (made w)))).
  set (w1 := set_made (set_std w i o e) (S (S (S (made w))))).
  assert (until_yield InOutPatch w
          = Returns (w1, PyTuple [i; o; e],
                     InOutLocals (sys_stdin w) (sys_stdout w) (sys_stderr w) i o e))
    as Hy by reflexivity.
  exists i, o, e, w1, (body (PyTuple [i; o; e]) w1).1, (body (PyTuple [i; o; e]) w1).2,
    (finally (InOutLocals (sys_stdin w) (sys_stdout w) (sys_stderr w) i o e)
       (body (PyTuple [i; o; e]) w1).1),
    {| class := InOutPatch; generator := None |}.
  split; [|split; [|split; [|split; [|split; [|split; [|split]]]]]]; try reflexivity.
  - unfold i, o, e. repeat split; intros [=]; lia.
  - by destruct (body _ w1).
  - by apply with_new_patch.
Qed.

(** [X17] A patch entered a second time without [__exit__] in between:
    the second [__enter__] raises [StopIteration] and does to the
    interpreter what [__exit__] would have done (the generator runs on from
    its [yield] through the [finally] block); an [__exit__] after that
    changes nothing, so the [finally] block runs once. *)
Theorem second_enter_undoes_patch
    (c : PatchClass) (w w1 w2 : World) (self1 : instance) (y : pyval) :
  __enter__ (__init__ c) w = (self1, w1, Returns y) →
  ∃ self2 w3,
    __enter__ self1 w2 = (self2, w3, Raises (OtherException "StopIteration"))
    ∧ w3 = (__exit__ self1 w2).1.2
    ∧ (__exit__ self2 w3).1.2 = w3.
Proof.
  unfold __enter__, __init__, next. simpl.
  destruct (until_yield c w) as [[[w' y'] l]|x]; [|discriminate].
  intros [= <- <- <-]. simpl. eexists _, _. repeat split.
Qed.

Lemma second_enter_undoes_patch_witness :
  ∃ self1 w1 self2 w3,
    __enter__ (__init__ TimePatch) ex_world = (self1, w1, Returns PyNone)
    ∧ __enter__ self1 w1 = (self2, w3, Raises (OtherException "StopIteration"))
    ∧ getattr w1 (PyObj 10) "sleep" = Returns (PyNoop 0)
    ∧ getattr w3 (PyObj 10) "sleep" = Returns (PyObj 20).
Proof.
  set (r := __enter__ (__init__ TimePatch) ex_world).
  assert (r = (r.1.1, r.1.2, Returns PyNone)) as Hr by reflexivity.
  destruct (second_enter_undoes_patch TimePatch ex_world r.1.2 r.1.2 r.1.1 PyNone Hr)
    as (self2 & w3 & He & Hw & _).
  exists r.1.1, r.1.2, self2, w3. split; [exact Hr|]. split; [exact He|].
  split; [reflexivity|]. rewrite Hw. reflexivity.
Defined.

End patches.

(** ** More on [diff_images] *)

Lemma zip_with_comm {A B} (f : A → A → B) (l k : list A) :
  (∀ x y, f x y = f y x) → zip_with f l k = zip_with f k l.
Proof.
  intros Hf. revert k. induction l as [|x l IH]; intros [|y k]; simpl; [done..|].
  by rewrite Hf, IH.
Qed.

(** [X18] [diff_images] does not depend on the order of its two
    arguments, result and [ValueError] alike. *)
Theorem diff_images_comm (image1 image2 : Image) :
  diff_images image1 image2 = diff_images image2 image1.
Proof.
  unfold diff_images, ImageChops_difference.
  destruct (decide (bands image1 = bands image2)) as [E|E].
  - rewrite decide_True by done. rewrite E. do 4 f_equal.
    apply zip_with_comm. intros r1 r2.
    apply zip_with_comm. intros p1 p2.
    apply zip_with_comm. intros a b. lia.
  - by rewrite decide_False by done.
Qed.

Lemma difference_pixel_ok n (p1 p2 : list nat) :
  length p1 = n ∧ Forall (λ v, v < 256) p1 →
  length p2 = n ∧ Forall (λ v, v < 256) p2 →
  length (zip_with (λ a b, (a - b) + (b - a)) p1 p2) = n
  ∧ Forall (λ v, v < 256) (zip_with (λ a b, (a - b) + (b - a)) p1 p2).
Proof.
  intros [L1 F1] [L2 F2]. split.
  - rewrite length_zip_with. lia.
  - clear L1 L2. revert p2 F2. induction F1 as [|a p1 Ha _ IH]; intros p2 F2; [constructor|].
    destruct F2 as [|b p2 Hb F2]; simpl; [constructor|].
    constructor; [lia | by apply IH].
Qed.

Lemma difference_rows_ok n (rows1 rows2 : list (list (list nat))) :
  length <$> rows1 = length <$> rows2 →
  Forall (λ px, length px = n ∧ Forall (λ v, v < 256) px) (concat rows1) →
  Forall (λ px, length px = n ∧ Forall (λ v, v < 256) px) (concat rows2) →
  let d := zip_with (zip_with (zip_with (λ a b, (a - b) + (b - a)))) rows1 rows2 in
  length (concat d) = length (concat rows1)
  ∧ Forall (λ px, length px = n ∧ Forall (λ v, v < 256) px) (concat d).
Proof.
  revert rows2. induction rows1 as [|r1 rows1 IH]; intros [|r2 rows2] Hs F1 F2;
    simpl in *; try discriminate; [by split|].
  injection Hs as Hl Hs.
  apply Forall_app in F1 as [F1 F1']. apply Forall_app in F2 as [F2 F2'].
  destruct (IH rows2 Hs F1' F2') as [IHl IHf].
  rewrite !length_app, IHl. split.
  - f_equal. rewrite length_zip_with. lia.
  - apply Forall_app. split; [|exact IHf].
    clear -F1 F2. revert r2 F2.
    induction F1 as [|p1 r1 Hp1 _ IHr]; intros r2 F2; [constructor|].
    destruct F2 as [|p2 r2 Hp2 F2]; simpl; [constructor|].
    constructor; [by apply difference_pixel_ok | by apply IHr].
Qed.

(** [X19] For two well-formed images with the same bands and the same
    rows of the same lengths, [diff_images] is the number of pixel values
    of one of them (bands times pixels), whatever the pixels of the two
    images are: it is the same number for equal images and for images that
    differ in every pixel. *)
Theorem diff_images_ignores_pixels (image1 image2 : Image) :
  well_formed image1 →
  well_formed image2 →
  bands image1 = bands image2 →
  shape image1 = shape image2 →
  diff_images image1 image2 = Some (bands image1 * length (pixels image1)).
Proof.
  intros W1 W2 Hb Hs. unfold diff_images, ImageChops_difference.
  rewrite decide_True by done.
  unfold well_formed, pixels, shape in *. rewrite <- Hb in W2.
  destruct (difference_rows_ok (bands image1) (rows image1) (rows image2) Hs W1 W2)
    as [Hl Hf].
  rewrite histogram_total by exact Hf.
  unfold pixels. simpl. by rewrite Hl.
Qed.

Lemma diff_images_ignores_pixels_witness :
  diff_images {| bands := 3; rows := [[[0; 0; 0]; [255; 255; 255]]] |}
              {| bands := 3; rows := [[[255; 0; 7]; [255; 255; 255]]] |}
  = Some 6
  ∧ diff_images {| bands := 3; rows := [[[0; 0; 0]; [255; 255; 255]]] |}
                {| bands := 3; rows := [[[0; 0; 0]; [255; 255; 255]]] |}
    = Some 6.
Proof.
  split.
  - apply (diff_images_ignores_pixels
             {| bands := 3; rows := [[[0; 0; 0]; [255; 255; 255]]] |}
             {| bands := 3; rows := [[[255; 0; 7]; [255; 255; 255]]] |});
      try reflexivity; repeat constructor; simpl; lia.
  - apply (diff_images_ignores_pixels
             {| bands := 3; rows := [[[0; 0; 0]; [255; 255; 255]]] |}
             {| bands := 3; rows := [[[0; 0; 0]; [255; 255; 255]]] |});
      try reflexivity; repeat constructor; simpl; lia.
Defined.

(** ** The named arguments of [Tab], [Test] and [Annotation] *)

(** [X20] The start record of a [Tab] has its [title], that of a [Test]
    its [description] and [expected], that of an [Annotation] its [row] and
    [text] and the command [annotate-code] in place of [start-annotation];
    every other keyword argument is in the record under its name. *)
Theorem named_arguments_in_start_record
    (title description expected row text : value) (kwargs : dict) :
  let tab := start_msg (Tab_init title kwargs) in
  let test := start_msg (Test_init description expected kwargs) in
  let annotation := start_msg (Annotation_init row text kwargs) in
  (tab !! "title" = Some title
   ∧ ∀ k, k ≠ "title" → k ≠ "command" → tab !! k = kwargs !! k)
  ∧ (test !! "description" = Some description ∧ test !! "expected" = Some expected
     ∧ ∀ k, k ≠ "description" → k ≠ "expected" → k ≠ "command" →
         test !! k = kwargs !! k)
  ∧ (annotation !! "row" = Some row ∧ annotation !! "text" = Some text
     ∧ ∀ k, k ≠ "row" → k ≠ "text" → k ≠ "command" → annotation !! k = kwargs !! k)
  ∧ (kwargs !! "command" = None →
     tab !! "command" = Some (VStr "start-tab")
     ∧ test !! "command" = Some (VStr "start-test")
     ∧ annotation !! "command" = Some (VStr "annotate-code")).
Proof.
  intros tab test annotation. unfold tab, test, annotation.
  rewrite !start_msg_eq. simpl.
  split; [|split; [|split]].
  - split; [apply command_record_lookup; by simplify_map_eq|].
    intros k ? ?. rewrite command_record_other by done. by simplify_map_eq.
  - split; [|split]; [apply command_record_lookup; by simplify_map_eq..|].
    intros k ? ? ?. rewrite command_record_other by done. by simplify_map_eq.
  - split; [|split]; [apply command_record_lookup; by simplify_map_eq..|].
    intros k ? ? ?. rewrite command_record_other by done. by simplify_map_eq.
  - intros Hc. split; [|split]; apply command_record_fresh; by simplify_map_eq.
Qed.

Lemma named_arguments_in_start_record_witness :
  start_msg (Annotation_init (VInt 3) (VStr "unused variable")
               {[ "type" := VStr "warning" ]})
  = {[ "command" := VStr "annotate-code"; "row" := VInt 3;
       "text" := VStr "unused variable"; "type" := VStr "warning" ]}.
Proof.
  destruct (named_arguments_in_start_record VNone VNone VNone (VInt 3)
              (VStr "unused variable") {[ "type" := VStr "warning" ]})
    as (_ & _ & (Hr & Ht & Hk) & Hc).
  destruct Hc as (_ & _ & Hc); [reflexivity|].
  apply map_eq. intros k.
  destruct (decide (k = "command")) as [->|?]; [by rewrite Hc|].
  destruct (decide (k = "row")) as [->|?]; [by rewrite Hr|].
  destruct (decide (k = "text")) as [->|?]; [by rewrite Ht|].
  rewrite Hk by done. by simplify_map_eq.
Defined.

(** ** Signals without a note *)

(** [X21] A failure signal raised without keyword arguments has no note:
    from the raise to the end of the block [m] that claims it no record
    starts a block; the records written are, in this order, one close
    record for each block around the raise that has one, innermost first,
    then the [escalate-status] record of [m] if a recover point was named
    and none otherwise, then the close record of [m] if it has one. *)
Theorem signal_without_kwargs_writes_no_note
    (m : instance) (k : ctx) (st : dict) (ra : option Class)
    (stk stk_h : list instance) (out_h : list event) :
  has_outcome st →
  reach k (m :: stk) = Some (stk_h, out_h) →
  Forall (λ mgr, isinstance mgr (recover_at (DodonaException_init st ra ∅)) = false)
    (managers k) →
  isinstance m (recover_at (DodonaException_init st ra ∅)) = true →
  ∃ inner cl,
    exec (With m (plug k (RaiseDodona st ra ∅))) stk
    = (drop (S (depth k)) stk_h,
       __enter__ m ++ out_h
         ++ inner
         ++ match ra with
            | Some _ =>
                [Event AtEscalate (cls m)
                   (<["command" := VStr "escalate-status"]>
                      {[ "status" := VDict st ]})]
            | None => []
            end
         ++ cl,
       Normal)
    ∧ Forall (λ ev, at_site ev = AtExit) inner
    ∧ emitter <$> inner = filter (λ c, has_close c = true) (rev (cls <$> managers k))
    ∧ Forall (λ ev, at_site ev = AtExit ∧ emitter ev = cls m) cl
    ∧ length cl = (if has_close (cls m) then 1 else 0).
Proof.
  intros Ho Hr Hk Hm.
  destruct (exec_claimed m k st ra ∅ stk stk_h out_h Ho Hr Hk Hm)
    as (m' & _ & Hc & _ & Hout).
  set (e := DodonaException_init st ra ∅) in *.
  exists (closings e (take (depth k) stk_h)), (closing (bookkeep m' e)).
  split; [|split; [|split; [|split]]].
  - rewrite Hout. unfold escalation. rewrite Hm.
    destruct ra; reflexivity.
  - apply closings_sites.
  - rewrite closings_emitters. by erewrite frames_classes.
  - rewrite closing_eq, cls_bookkeep, Hc.
    destruct (has_close (cls m)); repeat constructor.
  - rewrite closing_eq, cls_bookkeep, Hc. by destruct (has_close (cls m)).
Qed.

Lemma signal_without_kwargs_writes_no_note_witness :
  ∃ inner cl,
    (exec (With ex_judgement (plug ex_site (RaiseDodona wrong_answer None ∅))) []).1.2
    = __enter__ ex_judgement
        ++ (__enter__ ex_tab ++ __enter__ ex_context ++ __enter__ ex_testcase
              ++ __enter__ ex_test)
        ++ inner ++ [] ++ cl
    ∧ emitter <$> inner = [Test; TestCase; Context; Tab]
    ∧ emitter <$> cl = [Judgement].
Proof.
  destruct (signal_without_kwargs_writes_no_note ex_judgement ex_site wrong_answer
              None []
              [set_close ex_test "generated" (VStr "<svg/>");
               ex_testcase; ex_context; ex_tab; ex_judgement]
              (__enter__ ex_tab ++ __enter__ ex_context ++ __enter__ ex_testcase
                 ++ __enter__ ex_test))
    as (inner & cl & He & _ & Hi & Hcl & Hl).
  - by eexists.
  - vm_compute. reflexivity.
  - repeat constructor.
  - reflexivity.
  - exists inner, cl. rewrite He, Hi. cbn [fst snd].
    split; [reflexivity|]. split; [reflexivity|].
    destruct cl as [|ev [|ev' cl]]; try discriminate Hl.
    apply Forall_singleton in Hcl as [_ Hev]. simpl. by rewrite Hev.
Defined.

(** ** Open blocks *)

Lemma open_blocks_app t1 t2 d :
  open_blocks d (t1 ++ t2) = open_blocks d t1 ≫= λ d1, open_blocks d1 t2.
Proof.
  revert d. induction t1 as [|ev t1 IH]; intros d; simpl; [done|].
  destruct (at_site ev); [apply IH| |apply IH]. destruct d; [done | apply IH].
Qed.

Lemma well_nested_open_blocks t :
  well_nested t → ∀ d, ∃ d', open_blocks d t = Some d' ∧ (d ≤ d')%nat.
Proof.
  induction 1 as [|c x rest _ IH|c x inner cl rest _ IHi Hcl _ IHr]; intros d.
  - exists d. by split.
  - apply IH.
  - simpl. rewrite !open_blocks_app.
    destruct (IHi (S d)) as (d1 & -> & Hd1). simpl.
    destruct Hcl as [->|[y ->]]; simpl.
    + destruct (IHr d1) as (d2 & -> & Hd2). exists d2. split; [done | lia].
    + destruct d1 as [|d1]; [lia|].
      destruct (IHr d1) as (d2 & -> & Hd2). exists d2. split; [done | lia].
Qed.

(** [X22] Reading the output of any body from its first record on, a
    close record never comes when no block is open, whatever the body
    raises and whatever status objects its signals carry; at the end as
    many blocks are open as at the start, or more (blocks without close
    record, blocks left open by a [KeyError]). *)
Theorem close_record_never_orphan (c : code) (stk : list instance) (d : nat) :
  ∃ d', open_blocks d (exec c stk).1.2 = Some d' ∧ (d ≤ d')%nat.
Proof.
  revert stk d. induction c as [|c1 IH1 c2 IH2|mgr body IH|lvl k v|st ra kw|what];
    intros stk d; simpl.
  - exists d. by split.
  - specialize (IH1 stk d).
    destruct (exec c1 stk) as [[stk1 o1] [|x]]; simpl in *; [|done].
    destruct IH1 as (d1 & H1 & Hd1). specialize (IH2 stk1 d1).
    destruct (exec c2 stk1) as [[stk2 o2] r2]; simpl in *.
    destruct IH2 as (d2 & H2 & Hd2). exists d2.
    rewrite open_blocks_app, H1. simpl. split; [done | lia].
  - specialize (IH (mgr :: stk) (S d)).
    destruct (exec body (mgr :: stk)) as [[stk1 o1] r1]; simpl in *.
    destruct IH as (d1 & H1 & Hd1).
    destruct stk1 as [|self stk1]; simpl.
    + exists d1. rewrite H1. split; [done | lia].
    + destruct (leave_shape self r1) as (h & cl & Hl & Hh & Hcl).
      destruct (leave self r1) as [o2 r2]; simpl in *. subst o2.
      rewrite !open_blocks_app, H1. cbn [mbind option_bind].
      destruct (well_nested_open_blocks h Hh d1) as (d2 & Hd2' & Hd2).
      rewrite open_blocks_app, Hd2'. cbn [mbind option_bind].
      destruct Hcl as [->|[y ->]]; simpl.
      * exists d2. split; [done | lia].
      * destruct d2 as [|d2]; [lia|]. exists d2. split; [done | lia].
  - destruct (stk !! lvl); exists d; by split.
  - exists d. by split.
  - exists d. by split.
Qed.
